(** * headers_predictor: a shallow embedding of the notebook's feature code

    The notebook [headers_predictor.ipynb] classifies rows of tabular data as
    header rows.  This file embeds the parts of it that compute on rows: the
    tokenizer, the word popularity counter, the word weight loop and the three
    feature loops, and proves properties of them.

    Conventions of the embedding.
    - A Python [str] is a list of characters; a character is an [ascii],
      read as the code point U+0000..U+00FF of the same number.  On this range
      [str.lower], [str.split], [str.isdigit] and the classes [\d], [\w] of
      [re] are the tables of module [Char].
    - A Python [float] that the code computes is kept as the exact rational
      it approximates; [np.nan], [np.inf] and the square root taken by
      [ndarray.std] are constructors of [npfloat].
    - A dictionary is the list of its items in insertion order.  A NumPy
      array of strings is the list of its elements as the array gives them
      back, which is without trailing U+0000.
    - A Python exception is the [Raise] branch of [result]. *)

From Stdlib Require Import Bool Ascii String List NArith ZArith QArith Lia.
From Stdlib Require Import Lqa Permutation.
Import ListNotations.

Local Open Scope list_scope.

(** ** Exceptions *)

Inductive exn : Type :=
| ZeroDivisionError
| ValueError.

Inductive result (A : Type) : Type :=
| Ok (a : A)
| Raise (e : exn).

Arguments Ok {A} a.
Arguments Raise {A} e.

Definition bind {A B : Type} (c : result A) (k : A -> result B) : result B :=
  match c with
  | Ok a => k a
  | Raise e => Raise e
  end.

Notation "x <- c ;; k" := (bind c (fun x => k))
  (at level 61, c at next level, right associativity).

Fixpoint mapM {A B : Type} (f : A -> result B) (l : list A) : result (list B) :=
  match l with
  | [] => Ok []
  | a :: l' => b <- f a ;; bs <- mapM f l' ;; Ok (b :: bs)
  end.

(** ** Characters *)

Module Char.

Definition ord (c : ascii) : N := N_of_ascii c.

Definition between (lo hi : N) (c : ascii) : bool :=
  ((lo <=? ord c) && (ord c <=? hi))%N.

Definition at_code (n : N) (c : ascii) : bool := (ord c =? n)%N.

(** [str.isspace], the separators of [str.split()] without argument. *)
Definition isspace (c : ascii) : bool :=
  between 9 13 c || between 28 32 c || at_code 133 c || at_code 160 c.

(** Category Nd, the characters that [\d] matches in a [str] pattern. *)
Definition isdecimal (c : ascii) : bool := between 48 57 c.

(** [str.isdigit] also accepts the superscripts U+00B2, U+00B3, U+00B9. *)
Definition isdigit (c : ascii) : bool :=
  isdecimal c || at_code 178 c || at_code 179 c || at_code 185 c.

Definition isnumeric (c : ascii) : bool := isdigit c || between 188 190 c.

Definition isalpha (c : ascii) : bool :=
  between 65 90 c || between 97 122 c
  || at_code 170 c || at_code 181 c || at_code 186 c
  || between 192 214 c || between 216 246 c || between 248 255 c.

(** [\w] of [re] on [str]: alphanumeric or underscore. *)
Definition isword (c : ascii) : bool := isalpha c || isnumeric c || at_code 95 c.

Definition isupper (c : ascii) : bool :=
  between 65 90 c || between 192 214 c || between 216 222 c.

(** [str.lower] on one character. *)
Definition lower (c : ascii) : ascii :=
  if isupper c then ascii_of_N (ord c + 32) else c.

Definition is_nul (c : ascii) : bool := at_code 0 c.

End Char.

(** ** Strings *)

Definition str : Type := list ascii.

(** String literals of the source. *)
Definition s (lit : string) : str := list_ascii_of_string lit.

Fixpoint str_eqb (a b : str) : bool :=
  match a, b with
  | [], [] => true
  | c :: a', d :: b' => Ascii.eqb c d && str_eqb a' b'
  | _, _ => false
  end.

(** [len] of a sequence, a Python [int]. *)
Definition len {A : Type} (l : list A) : Z := Z.of_nat (length l).

Definition lower (x : str) : str := map Char.lower x.

Fixpoint table_get (t : list (ascii * ascii)) (c : ascii) : option ascii :=
  match t with
  | [] => None
  | (k, v) :: t' => if Ascii.eqb k c then Some v else table_get t' c
  end.

(** [str.maketrans(a, b)] and [str.translate]. *)
Definition maketrans (a b : str) : list (ascii * ascii) := combine a b.

Definition translate (t : list (ascii * ascii)) (x : str) : str :=
  map (fun c => match table_get t c with Some d => d | None => c end) x.

(** [str.split()]: the maximal runs of characters that are not whitespace.
    [cur] is the run being read, last character first. *)
Fixpoint split_from (cur : str) (x : str) : list str :=
  match x with
  | [] => match cur with [] => [] | _ :: _ => [rev cur] end
  | c :: x' =>
      if Char.isspace c then
        match cur with
        | [] => split_from [] x'
        | _ :: _ => rev cur :: split_from [] x'
        end
      else split_from (c :: cur) x'
  end.

Definition split (x : str) : list str := split_from [] x.

(** [sep.join(xs)]. *)
Fixpoint join (sep : str) (xs : list str) : str :=
  match xs with
  | [] => []
  | [x] => x
  | x :: xs' => x ++ sep ++ join sep xs'
  end.

(** [x.replace(c, '', 1)] for a one-character [c]. *)
Fixpoint remove_first (c : ascii) (x : str) : str :=
  match x with
  | [] => []
  | d :: x' => if Ascii.eqb d c then x' else d :: remove_first c x'
  end.

(** [x.isdigit()]: at least one character and all of them digits. *)
Definition isdigit (x : str) : bool :=
  match x with
  | [] => false
  | _ :: _ => forallb Char.isdigit x
  end.

(** [c in x]. *)
Definition contains (c : ascii) (x : str) : bool := existsb (Ascii.eqb c) x.

(** ** The constants and the tokenizer *)

Definition PUNCT_PATTERN : str := s "-/():.,;".

Definition punct_remover : list (ascii * ascii) :=
  maketrans PUNCT_PATTERN (repeat " "%char (length PUNCT_PATTERN)).

(** [re.search(r"\d", y)] as a truth value. *)
Definition re_search_digit (y : str) : bool := existsb Char.isdecimal y.

(** The truth value of a [str]. *)
Definition truthy (y : str) : bool :=
  match y with [] => false | _ :: _ => true end.

Definition words_from_values (values : list str) : list str :=
  filter (fun y => truthy y && negb (re_search_digit y))
         (concat (map (fun x => split (translate punct_remover (lower x))) values)).

(** ** Python and NumPy numbers *)

(** [a / b] on Python [int]s. *)
Definition int_truediv (a b : Z) : result Q :=
  if (b =? 0)%Z then Raise ZeroDivisionError
  else Ok (inject_Z a / inject_Z b).

(** [a / b] on Python [float]s. *)
Definition float_truediv (a b : Q) : result Q :=
  if Qeq_bool b 0 then Raise ZeroDivisionError
  else Ok (a / b).

(** A NumPy [float64]. *)
Inductive npfloat : Type :=
| nan
| inf (negative : bool)
| num (q : Q)
| sqrt (q : Q).

(** [a / b] where [a] is a NumPy integer scalar: division by zero gives
    [nan] or an infinity (with a warning, which the notebook silences),
    it does not raise. *)
Definition np_true_divide (a b : Z) : npfloat :=
  if (b =? 0)%Z then (if (a =? 0)%Z then nan else inf (a <? 0)%Z)
  else num (inject_Z a / inject_Z b).

Definition qsum (l : list Q) : Q := fold_right Qplus 0 l.

Definition qmax (a b : Q) : Q := if Qle_bool a b then b else a.

(** [ndarray.mean], [ndarray.max] and [ndarray.std] of a one-dimensional
    array.  On an empty array [mean] and [std] give [nan] and [max] raises. *)
Definition np_mean (a : list Q) : npfloat :=
  match a with
  | [] => nan
  | _ :: _ => num (qsum a / inject_Z (len a))
  end.

Definition np_max (a : list Q) : result npfloat :=
  match a with
  | [] => Raise ValueError
  | x :: a' => Ok (num (fold_left qmax a' x))
  end.

Definition np_std (a : list Q) : npfloat :=
  match a with
  | [] => nan
  | _ :: _ =>
      let m := qsum a / inject_Z (len a) in
      sqrt (qsum (map (fun x => (x - m) * (x - m)) a) / inject_Z (len a))
  end.

(** An element read back from a NumPy array of fixed-width strings: the
    array pads with U+0000 and drops every trailing U+0000 on the way out. *)
Fixpoint np_str (x : str) : str :=
  match x with
  | [] => []
  | c :: x' =>
      match np_str x' with
      | [] => if Char.is_nul c then [] else [c]
      | r => c :: r
      end
  end.

(** [np.array(values)] for a list of strings, as the sequence of its
    elements. *)
Definition np_array (values : list str) : list str := map np_str values.

(** [np.vectorize(f)(a)] without [otypes]: it calls [f] on the first element
    to find the output type and refuses an array of size 0. *)
Definition np_vectorize {B : Type} (f : str -> B) (a : list str) : result (list B) :=
  match a with
  | [] => Raise ValueError
  | _ :: _ => Ok (map f a)
  end.

(** The builtin [sum] over booleans, starting from the [int] 0. *)
Definition sum_bools (bs : list bool) : Z :=
  fold_left (fun acc (b : bool) => (acc + (if b then 1 else 0))%Z) bs 0%Z.

(** ** Dictionaries, in insertion order *)

Definition dict (V : Type) : Type := list (str * V).

Fixpoint dict_get {V : Type} (d : dict V) (k : str) (default : V) : V :=
  match d with
  | [] => default
  | (k', v) :: d' => if str_eqb k' k then v else dict_get d' k default
  end.

Fixpoint dict_set {V : Type} (d : dict V) (k : str) (v : V) : dict V :=
  match d with
  | [] => [(k, v)]
  | (k', v') :: d' =>
      if str_eqb k' k then (k', v) :: d' else (k', v') :: dict_set d' k v
  end.

Definition dict_values {V : Type} (d : dict V) : list V := map snd d.

Definition dict_keys {V : Type} (d : dict V) : list str := map fst d.

(** [collections.Counter(words)]: for each element in turn,
    [c[elem] = c.get(elem, 0) + 1]. *)
Definition count_step (c : dict Z) (elem : str) : dict Z :=
  dict_set c elem (dict_get c elem 0 + 1)%Z.

Definition Counter (words : list str) : dict Z :=
  fold_left count_step words [].

(** [set(words)], as the list of its elements in one of the orders the
    set may be read in. *)
Fixpoint set_of (words : list str) : list str :=
  match words with
  | [] => []
  | w :: words' =>
      if existsb (str_eqb w) words' then set_of words' else w :: set_of words'
  end.

(** ** Rows *)

Record row : Type := { values : list str; type : bool }.

(** ** Word collection and popularity *)

Definition get_words (data : list row) : list str :=
  fold_left (fun words obj => words ++ words_from_values (values obj)) data [].

(** The comprehension runs over the counter's items, whose keys are
    distinct, so the list of pairs it yields is the dictionary. *)
Definition words_counter (data : list row) : result (dict Q) :=
  let words := get_words data in
  mapM (fun '(x, y) => p <- int_truediv y (len words) ;; Ok (x, p))
       (Counter words).

(** ** Partitions, popularity maps and word weights *)

Definition data_headers (data_sampled : list row) : list row :=
  filter (fun x => type x) data_sampled.

Definition data_others (data_sampled : list row) : list row :=
  filter (fun x => negb (type x)) data_sampled.

Definition all_words (data_sampled : list row) : list str :=
  set_of (get_words data_sampled).

(** The value stored for one word, [(h - o) / (h + o)]. *)
Definition weight (header_words other_words : dict Q) (word : str) : result Q :=
  let h := dict_get header_words word 0 in
  let o := dict_get other_words word 0 in
  float_truediv (h - o) (h + o).

(** The loop that fills [word_weights], started with the dictionary [acc]. *)
Fixpoint word_weights_loop (header_words other_words : dict Q)
    (words : list str) (acc : dict Q) : result (dict Q) :=
  match words with
  | [] => Ok acc
  | word :: words' =>
      w <- weight header_words other_words word ;;
      word_weights_loop header_words other_words words' (dict_set acc word w)
  end.

(** Both popularity maps, then the loop over [all_words]. *)
Definition word_weights (data_sampled : list row) : result (dict Q) :=
  header_words <- words_counter (data_headers data_sampled) ;;
  other_words <- words_counter (data_others data_sampled) ;;
  word_weights_loop header_words other_words (all_words data_sampled) [].

(** ** The first feature loop: sparsity, floats and long integers *)

Record first_features : Type := {
  y : bool;
  size : Z;
  sparsity : npfloat;
  floats_N : npfloat;
  long_ints : npfloat
}.

(** The two lambdas that the loop vectorizes. *)
Definition is_float (x : str) : bool :=
  isdigit (remove_first "."%char x) && contains "."%char x.

Definition is_long_int (x : str) : bool :=
  isdigit (remove_first "."%char x) && (4 <? len x)%Z.

(** [(values == '').sum()]. *)
Definition count_empty (values : list str) : Z :=
  len (filter (fun v => str_eqb v []) values).

(** One turn of the loop.  The two divisions after [np.vectorize] have a
    NumPy integer on the left, like the first one. *)
Definition first_loop_body (r : row) : result first_features :=
  let values := np_array (values r) in
  let size := len values in
  let sparsity := np_true_divide (count_empty values) (len values) in
  fl <- np_vectorize is_float values ;;
  let floats_N := np_true_divide (sum_bools fl) (len values) in
  li <- np_vectorize is_long_int values ;;
  let long_ints := np_true_divide (sum_bools li) (len values) in
  Ok {| y := type r; size := size; sparsity := sparsity;
        floats_N := floats_N; long_ints := long_ints |}.

Definition first_loop (data_sampled : list row) : result (list first_features) :=
  mapM first_loop_body data_sampled.

(** ** The second feature loop: mean, max and std of the word weights *)

Definition weights_loop_body (word_weights : dict Q) (r : row)
    : result (npfloat * npfloat * npfloat) :=
  let values := np_array (values r) in
  let word_weights_ :=
    map (fun word => dict_get word_weights word 0) (words_from_values values) in
  if (0 <? len word_weights_)%Z then
    mx <- np_max word_weights_ ;;
    Ok (np_mean word_weights_, mx, np_std word_weights_)
  else Ok (nan, nan, nan).

Definition weights_loop (word_weights : dict Q) (data_sampled : list row)
    : result (list (npfloat * npfloat * npfloat)) :=
  mapM (weights_loop_body word_weights) data_sampled.

(** ** The third feature loop: densities of years and of day/month pairs *)

Definition isword_at (c : option ascii) : bool :=
  match c with
  | Some a => Char.isword a
  | None => false
  end.

(** [\b] between the characters [before] and [after]; [None] is an end of
    the string. *)
Definition boundary (before after : option ascii) : bool :=
  xorb (isword_at before) (isword_at after).

(** A match of [YEAR_PATTERN] at the head of [x], where [before] is the
    character in front of it: the text of group 1. *)
Definition YEAR_PATTERN (before : option ascii) (x : str) : option str :=
  match x with
  | a :: b :: c :: d :: rest =>
      if boundary before (Some a)
         && (str_eqb [a; b] (s "19") || str_eqb [a; b] (s "20"))
         && Char.isdecimal c && Char.isdecimal d
         && boundary (Some d) (hd_error rest)
      then Some [a; b] else None
  | _ => None
  end.

(** A match of [DDMM_PATTERN] at the head of [x]: the matched text. *)
Definition DDMM_PATTERN (x : str) : option str :=
  match x with
  | a :: b :: c :: d :: e :: _ =>
      if Char.isdecimal a && Char.isdecimal b && Ascii.eqb c "/"
         && Char.isdecimal d && Char.isdecimal e
      then Some [a; b; c; d; e] else None
  | _ => None
  end.

(** [re.findall] for a pattern whose matches are [width + 1] characters
    long: leftmost matches that do not overlap.  [before] is the character
    in front of [x] and [skip] counts the characters of the last match that
    are still to be passed. *)
Fixpoint findall_from (pattern : option ascii -> str -> option str)
    (width : nat) (before : option ascii) (skip : nat) (x : str) : list str :=
  match x with
  | [] => []
  | c :: x' =>
      match skip with
      | S k => findall_from pattern width (Some c) k x'
      | O =>
          match pattern before x with
          | Some m => m :: findall_from pattern width (Some c) width x'
          | None => findall_from pattern width (Some c) 0 x'
          end
      end
  end.

Definition findall_YEAR (string : str) : list str :=
  findall_from YEAR_PATTERN 3 None 0 string.

Definition findall_DDMM (string : str) : list str :=
  findall_from (fun _ => DDMM_PATTERN) 4 None 0 string.

Definition dates_loop_body (r : row) : result (npfloat * npfloat) :=
  let values := np_array (values r) in
  let string := join (s " ") values in
  if (0 <? len string)%Z then
    years <- int_truediv (len (findall_YEAR string)) (len string) ;;
    ddmm <- int_truediv (len (findall_DDMM string)) (len string) ;;
    Ok (num years, num ddmm)
  else Ok (nan, nan).

Definition dates_loop (data_sampled : list row) : result (list (npfloat * npfloat)) :=
  mapM dates_loop_body data_sampled.

(** ** Notions used to state the properties *)

(** The number of occurrences of [w] in [words], repetitions counted. *)
Definition occurrences (w : str) (words : list str) : Z :=
  len (filter (str_eqb w) words).

Definition zsum (l : list Z) : Z := fold_right Z.add 0%Z l.

(** The share of [y] tokens among [words]. *)
Definition popularity (words : list str) (y : Z) : Q :=
  inject_Z y / inject_Z (len words).

(** One character of a token: what [translate] does to it. *)
Definition translate_char (c : ascii) : ascii :=
  match table_get punct_remover c with Some d => d | None => c end.

(** What the tokenizer leaves in a token: no whitespace, no punctuation of
    [PUNCT_PATTERN], no decimal digit, nothing [str.lower] would change. *)
Definition token_char (c : ascii) : bool :=
  negb (Char.isspace c) && negb (contains c PUNCT_PATTERN)
  && negb (Char.isdecimal c) && Ascii.eqb (Char.lower c) c.

Definition is_token (y : str) : bool := truthy y && forallb token_char y.

(** A run that [split] cuts out of characters that satisfy [P]. *)
Definition run_of (P : ascii -> Prop) (w : str) : Prop :=
  truthy w = true /\ Forall P w /\ Forall (fun c => Char.isspace c = false) w.

(** The long integers as the notebook's text describes them ("Number of long
    ints"): the strings of digits only that are longer than 4 characters. *)
Definition long_int_described (x : str) : bool :=
  isdigit x && (4 <? len x)%Z.

Definition long_int_ratio_described (values : list str) : npfloat :=
  np_true_divide (len (filter long_int_described values)) (len values).

(** ** Sample rows *)

Definition header_row : row :=
  {| values := [s "Name"; s "Age"; s "1990"]; type := true |}.

Definition other_row : row :=
  {| values := [s "John"; s "34"; s "1990"]; type := false |}.

Definition one_year_row : row :=
  {| values := [s "1990"; s ""]; type := false |}.

Definition no_values_row : row := {| values := []; type := false |}.

Definition decimal_row : row := {| values := [s "123.45"]; type := false |}.



Definition map_of (c : result (dict Q)) : dict Q :=
  match c with Ok m => m | Raise _ => [] end.

(** ** Further notions *)

(** The same row under the other label. *)
Definition relabel (r : row) : row :=
  {| values := values r; type := negb (type r) |}.

(** [(h - o) / (h + o)] for the popularities of [word] in two maps. *)
Definition ratio (header_words other_words : dict Q) (word : str) : Q :=
  (dict_get header_words word 0 - dict_get other_words word 0)
  / (dict_get header_words word 0 + dict_get other_words word 0).

(** A sample without header rows. *)
Definition only_others_sample : list row :=
  [other_row; {| values := [s "Jane"; s "41"]; type := false |}].

(** The array [word_weights_] that the word weight loop builds for a row. *)
Definition lookups (word_weights : dict Q) (r : row) : list Q :=
  map (fun word => dict_get word_weights word 0)
      (words_from_values (np_array (values r))).

(** * Properties *)

(** ** Characters and strings *)

Ltac each_char c :=
  destruct c as [[] [] [] [] [] [] [] []]; vm_compute; repeat split; congruence.

Lemma lower_translate_char (c : ascii) :
  let d := translate_char (Char.lower c) in
  contains d PUNCT_PATTERN = false /\ Char.lower d = d.
Proof. each_char c. Qed.

Lemma translate_char_id (c : ascii) :
  contains c PUNCT_PATTERN = false -> translate_char c = c.
Proof. each_char c. Qed.

Lemma translate_map (x : str) :
  translate punct_remover x = map translate_char x.
Proof. reflexivity. Qed.

Lemma str_eqb_eq (a b : str) : str_eqb a b = true <-> a = b.
Proof.
  revert b; induction a as [|c a IH]; intros [|d b]; simpl;
    try (split; [discriminate | congruence]); [tauto|].
  rewrite andb_true_iff, Ascii.eqb_eq, IH.
  split; [intros [-> ->]; reflexivity | intros [= -> ->]; auto].
Qed.

Lemma str_eqb_refl (a : str) : str_eqb a a = true.
Proof. apply str_eqb_eq; reflexivity. Qed.

Lemma str_eqb_neq (a b : str) : str_eqb a b = false <-> a <> b.
Proof.
  rewrite <- str_eqb_eq. destruct (str_eqb a b); split; congruence.
Qed.

Lemma str_eqb_sym (a b : str) : str_eqb a b = str_eqb b a.
Proof.
  destruct (str_eqb b a) eqn:E.
  - apply str_eqb_eq in E; subst; apply str_eqb_refl.
  - apply str_eqb_neq; apply str_eqb_neq in E; congruence.
Qed.

(** ** The notebook's functions on small inputs *)

Example words_of_header_row :
  words_from_values (values header_row) = [s "name"; s "age"].
Proof. reflexivity. Qed.

Example words_of_punctuation :
  words_from_values [s "Total (USD), net-of/tax"; s " a1 B "]
  = [s "total"; s "usd"; s "net"; s "of"; s "tax"; s "b"].
Proof. reflexivity. Qed.

Example years_of_report : len (findall_YEAR (s "Report 1999 2001")) = 2%Z.
Proof. reflexivity. Qed.

Example years_need_boundaries :
  findall_YEAR (s "19991999 a1999 1999_ 2099.1900") = [s "20"; s "19"].
Proof. reflexivity. Qed.

Example ddmm_of_date : findall_DDMM (s "12/05 other") = [s "12/05"].
Proof. reflexivity. Qed.

Example ddmm_do_not_overlap :
  findall_DDMM (s "12/05/07 123/456") = [s "12/05"; s "23/45"].
Proof. reflexivity. Qed.

Example counter_of_words :
  Counter [s "a"; s "b"; s "a"] = [(s "a", 2%Z); (s "b", 1%Z)].
Proof. reflexivity. Qed.

Example np_array_drops_trailing_nul :
  np_array [s "a"; ["a"; zero; zero]%char; [zero; "b"]%char]
  = [s "a"; s "a"; [zero; "b"]%char].
Proof. reflexivity. Qed.

(** ** The tokenizer *)

Section Split.

Variable P : ascii -> Prop.

Lemma rev_run (cur : str) :
  cur <> [] -> Forall P cur -> Forall (fun c => Char.isspace c = false) cur ->
  run_of P (rev cur).
Proof.
  intros Hne HP Hs. repeat split.
  - destruct (rev cur) eqn:E; [|reflexivity].
    apply (f_equal (@rev ascii)) in E. rewrite rev_involutive in E.
    simpl in E. contradiction.
  - apply Forall_rev, HP.
  - apply Forall_rev, Hs.
Qed.

Lemma split_from_runs (x cur : str) :
  Forall P cur -> Forall (fun c => Char.isspace c = false) cur ->
  Forall P x ->
  Forall (run_of P) (split_from cur x).
Proof.
  revert cur. induction x as [|c x IH]; intros cur HPc Hsc HPx; simpl.
  - destruct cur; constructor; [|constructor].
    apply rev_run; auto; discriminate.
  - inversion HPx; subst.
    destruct (Char.isspace c) eqn:Ec.
    + destruct cur.
      * apply IH; auto.
      * constructor; [apply rev_run; auto; discriminate | apply IH; auto].
    + apply IH; auto.
Qed.

End Split.

Lemma split_from_one (x cur : str) :
  Forall (fun c => Char.isspace c = false) x ->
  split_from cur x = match rev cur ++ x with [] => [] | w => [w] end.
Proof.
  revert cur. induction x as [|c x IH]; intros cur Hx; simpl.
  - rewrite app_nil_r. destruct cur as [|d cur]; [reflexivity|].
    destruct (rev (d :: cur)) eqn:E; [|reflexivity].
    apply (f_equal (@rev ascii)) in E. rewrite rev_involutive in E. discriminate.
  - inversion Hx as [|? ? Hc Hx']; subst. rewrite Hc, IH by assumption.
    simpl. rewrite <- app_assoc. reflexivity.
Qed.

Lemma token_char_spec (c : ascii) :
  token_char c = true <->
  Char.isspace c = false /\ contains c PUNCT_PATTERN = false
  /\ Char.isdecimal c = false /\ Char.lower c = c.
Proof.
  unfold token_char.
  rewrite !andb_true_iff, !negb_true_iff, Ascii.eqb_eq. tauto.
Qed.

Lemma words_from_values_tokens (values : list str) :
  Forall (fun y => is_token y = true) (words_from_values values).
Proof.
  unfold words_from_values.
  apply Forall_forall. intros y Hy.
  apply filter_In in Hy. destruct Hy as [Hin Hkeep].
  apply andb_true_iff in Hkeep. destruct Hkeep as [Hne Hnd].
  apply negb_true_iff in Hnd.
  apply in_concat in Hin. destruct Hin as [ws [Hws Hy]].
  apply in_map_iff in Hws. destruct Hws as [x [<- _]].
  pose (P := fun c => contains c PUNCT_PATTERN = false /\ Char.lower c = c).
  assert (Hall : Forall P (translate punct_remover (lower x))).
  { rewrite translate_map. unfold lower. rewrite map_map.
    apply Forall_forall. intros d Hd. apply in_map_iff in Hd.
    destruct Hd as [c [<- _]]. apply lower_translate_char. }
  pose proof (split_from_runs P _ [] (Forall_nil _) (Forall_nil _) Hall) as Hsp.
  rewrite Forall_forall in Hsp. specialize (Hsp y Hy).
  destruct Hsp as [_ [HP Hs]].
  unfold is_token. rewrite Hne. simpl.
  apply forallb_forall. intros c Hc.
  apply token_char_spec.
  rewrite Forall_forall in HP, Hs.
  destruct (HP c Hc) as [H1 H2].
  repeat split; auto.
  unfold re_search_digit in Hnd.
  destruct (Char.isdecimal c) eqn:E; [|reflexivity].
  assert (existsb Char.isdecimal y = true) by (apply existsb_exists; eauto).
  congruence.
Qed.

Lemma is_token_fixed (y : str) :
  is_token y = true ->
  split (translate punct_remover (lower y)) = [y]
  /\ truthy y && negb (re_search_digit y) = true.
Proof.
  unfold is_token. rewrite andb_true_iff, forallb_forall. intros [Hne Hall].
  assert (Hc : forall c, In c y ->
            Char.isspace c = false /\ contains c PUNCT_PATTERN = false
            /\ Char.isdecimal c = false /\ Char.lower c = c).
  { intros c Hin. apply token_char_spec, Hall, Hin. }
  assert (Hlow : lower y = y).
  { unfold lower. rewrite <- (map_id y) at 2. apply map_ext_in.
    intros c Hin. apply Hc, Hin. }
  assert (Htr : translate punct_remover y = y).
  { rewrite translate_map. rewrite <- (map_id y) at 2. apply map_ext_in.
    intros c Hin. apply translate_char_id, Hc, Hin. }
  rewrite Hlow, Htr. split.
  - unfold split. rewrite split_from_one.
    + simpl. destruct y; [discriminate | reflexivity].
    + apply Forall_forall. intros c Hin. apply Hc, Hin.
  - rewrite Hne. simpl. apply negb_true_iff.
    unfold re_search_digit.
    destruct (existsb Char.isdecimal y) eqn:E; [|reflexivity].
    apply existsb_exists in E. destruct E as [c [Hin Hd]].
    destruct (Hc c Hin) as [_ [_ [Hnd _]]]. congruence.
Qed.

Lemma words_from_values_fixed (ws : list str) :
  Forall (fun y => is_token y = true) ws -> words_from_values ws = ws.
Proof.
  unfold words_from_values.
  induction 1 as [|y ws Hy _ IH]; [reflexivity|].
  destruct (is_token_fixed y Hy) as [Hsp Hkeep].
  simpl. rewrite Hsp. simpl. rewrite Hkeep, IH. reflexivity.
Qed.

(** C7. Every token that [words_from_values] returns is free of decimal
    digits and of the characters of [PUNCT_PATTERN], and no values give no
    tokens. *)
Theorem words_from_values_no_digit_no_punct (values : list str) :
  Forall (fun y => Forall (fun c => Char.isdecimal c = false
                                    /\ contains c PUNCT_PATTERN = false) y)
         (words_from_values values)
  /\ words_from_values [] = [].
Proof.
  split; [|reflexivity].
  eapply Forall_impl; [|apply words_from_values_tokens].
  intros y Hy. unfold is_token in Hy.
  apply andb_true_iff in Hy. destruct Hy as [_ Hall].
  rewrite forallb_forall in Hall.
  apply Forall_forall. intros c Hin.
  apply Hall, token_char_spec in Hin. tauto.
Qed.

(** C8. Tokenizing the tokens that [words_from_values] returned gives the
    same tokens back. *)
Theorem words_from_values_idempotent (values : list str) :
  words_from_values (words_from_values values) = words_from_values values.
Proof.
  apply words_from_values_fixed, words_from_values_tokens.
Qed.

(** ** Dictionaries and counters *)

Lemma dict_get_set {V : Type} (d : dict V) (k k' : str) (v dflt : V) :
  dict_get (dict_set d k v) k' dflt
  = if str_eqb k k' then v else dict_get d k' dflt.
Proof.
  induction d as [|[k0 v0] d IH]; simpl.
  - reflexivity.
  - destruct (str_eqb k0 k) eqn:E; simpl.
    + apply str_eqb_eq in E; subst k0.
      destruct (str_eqb k k'); reflexivity.
    + rewrite IH. destruct (str_eqb k0 k') eqn:E'; [|reflexivity].
      apply str_eqb_eq in E'; subst k0. rewrite str_eqb_sym, E. reflexivity.
Qed.

Lemma dict_set_sum (d : dict Z) (k : str) (v : Z) :
  zsum (dict_values (dict_set d k v))
  = (zsum (dict_values d) - dict_get d k 0 + v)%Z.
Proof.
  induction d as [|[k0 v0] d IH]; simpl.
  - lia.
  - destruct (str_eqb k0 k); simpl; [|rewrite IH]; lia.
Qed.

Lemma dict_set_keys {V : Type} (d : dict V) (k : str) (v : V) :
  dict_keys (dict_set d k v)
  = if existsb (str_eqb k) (dict_keys d) then dict_keys d
    else dict_keys d ++ [k].
Proof.
  induction d as [|[k0 v0] d IH]; simpl.
  - reflexivity.
  - rewrite (str_eqb_sym k k0).
    destruct (str_eqb k0 k); simpl; [reflexivity|].
    rewrite IH. destruct (existsb (str_eqb k) (dict_keys d)); reflexivity.
Qed.

Lemma existsb_str_eqb (k : str) (l : list str) :
  existsb (str_eqb k) l = true <-> In k l.
Proof.
  rewrite existsb_exists. split.
  - intros [x [Hin E]]. apply str_eqb_eq in E; subst; assumption.
  - intros Hin. exists k. split; [assumption | apply str_eqb_refl].
Qed.

Lemma dict_set_NoDup {V : Type} (d : dict V) (k : str) (v : V) :
  NoDup (dict_keys d) -> NoDup (dict_keys (dict_set d k v)).
Proof.
  intros Hd. rewrite dict_set_keys.
  destruct (existsb (str_eqb k) (dict_keys d)) eqn:E; [assumption|].
  apply NoDup_app; [assumption | repeat constructor; intros [] |].
  intros x Hx [<-|[]].
  apply existsb_str_eqb in Hx. congruence.
Qed.

Lemma occurrences_cons (w x : str) (words : list str) :
  occurrences w (x :: words)
  = ((if str_eqb x w then 1 else 0) + occurrences w words)%Z.
Proof.
  unfold occurrences, len. cbn [filter]. rewrite (str_eqb_sym w x).
  destruct (str_eqb x w); cbn [length]; lia.
Qed.

Lemma occurrences_nonneg (w : str) (words : list str) :
  (0 <= occurrences w words)%Z.
Proof. unfold occurrences, len. lia. Qed.

Lemma occurrences_pos (w : str) (words : list str) :
  (0 < occurrences w words)%Z <-> In w words.
Proof.
  induction words as [|x words IH].
  - unfold occurrences, len; simpl. split; [lia | tauto].
  - rewrite occurrences_cons. pose proof (occurrences_nonneg w words).
    simpl. destruct (str_eqb x w) eqn:E.
    + apply str_eqb_eq in E. split; [auto | lia].
    + apply str_eqb_neq in E. rewrite Z.add_0_l, IH. tauto.
Qed.

Lemma occurrences_le (w : str) (words : list str) :
  (occurrences w words <= len words)%Z.
Proof.
  unfold occurrences, len. pose proof (filter_length_le (str_eqb w) words). lia.
Qed.

Lemma counter_fold (words : list str) (c : dict Z) :
  let c' := fold_left count_step words c in
  (forall w, dict_get c' w 0 = dict_get c w 0 + occurrences w words)%Z
  /\ zsum (dict_values c') = (zsum (dict_values c) + len words)%Z
  /\ (NoDup (dict_keys c) -> NoDup (dict_keys c')).
Proof.
  revert c. induction words as [|x words IH]; intros c; simpl.
  - repeat split; auto.
    + intros w. unfold occurrences, len. simpl. lia.
    + unfold len. simpl. lia.
  - destruct (IH (count_step c x)) as [Hget [Hsum Hnd]].
    repeat split.
    + intros w. rewrite Hget, occurrences_cons. unfold count_step.
      rewrite dict_get_set. destruct (str_eqb x w) eqn:E; [|lia].
      apply str_eqb_eq in E; subst. lia.
    + rewrite Hsum. unfold count_step. rewrite dict_set_sum.
      unfold len. simpl length. lia.
    + intros Hc. apply Hnd. unfold count_step. apply dict_set_NoDup, Hc.
Qed.

Lemma Counter_get (words : list str) (w : str) :
  dict_get (Counter words) w 0%Z = occurrences w words.
Proof. exact (proj1 (counter_fold words []) w). Qed.

Lemma Counter_sum (words : list str) :
  zsum (dict_values (Counter words)) = len words.
Proof. exact (proj1 (proj2 (counter_fold words []))). Qed.

Lemma Counter_NoDup (words : list str) : NoDup (dict_keys (Counter words)).
Proof. apply (proj2 (proj2 (counter_fold words []))). constructor. Qed.

(** ** Word collection *)

Lemma get_words_flat_map (data : list row) :
  get_words data = flat_map (fun obj => words_from_values (values obj)) data.
Proof.
  unfold get_words.
  assert (H : forall acc,
            fold_left (fun words obj => words ++ words_from_values (values obj))
                      data acc
            = acc ++ flat_map (fun obj => words_from_values (values obj)) data).
  { induction data as [|r data IH]; intros acc; simpl.
    - symmetry; apply app_nil_r.
    - rewrite IH, app_assoc. reflexivity. }
  apply (H []).
Qed.

Lemma get_words_partition (data_sampled : list row) (w : str) :
  In w (get_words data_sampled) ->
  In w (get_words (data_headers data_sampled))
  \/ In w (get_words (data_others data_sampled)).
Proof.
  rewrite !get_words_flat_map, !in_flat_map.
  intros [r [Hr Hw]].
  destruct (type r) eqn:E; [left | right]; exists r; split; auto;
    apply filter_In; rewrite E; auto.
Qed.

Lemma set_of_In (words : list str) (w : str) :
  In w (set_of words) <-> In w words.
Proof.
  induction words as [|x words IH]; simpl; [tauto|].
  destruct (existsb (str_eqb x) words) eqn:E.
  - rewrite IH. apply existsb_str_eqb in E.
    split; [auto | intros [<-|H]; auto].
  - simpl. rewrite IH. tauto.
Qed.

(** ** Popularity maps *)

Lemma words_counter_Ok (data : list row) :
  words_counter data
  = Ok (map (fun '(x, y) => (x, popularity (get_words data) y))
            (Counter (get_words data))).
Proof.
  unfold words_counter.
  destruct (get_words data) as [|w words]; [reflexivity|].
  assert (Hn : (len (w :: words) =? 0)%Z = false).
  { apply Z.eqb_neq. unfold len. cbn [length]. lia. }
  induction (Counter (w :: words)) as [|[x y] c IH]; [reflexivity|].
  cbn [mapM map]. rewrite IH. unfold int_truediv at 1. rewrite Hn. reflexivity.
Qed.

Lemma popularity_get (words : list str) (c : dict Z) (w : str) :
  dict_get (map (fun '(x, y) => (x, popularity words y)) c) w 0
  == popularity words (dict_get c w 0%Z).
Proof.
  induction c as [|[x y] c IH]; simpl.
  - unfold popularity. unfold Qdiv. rewrite Qmult_0_l. reflexivity.
  - destruct (str_eqb x w); [reflexivity | exact IH].
Qed.

Lemma words_counter_get (data : list row) (m : dict Q) (w : str) :
  words_counter data = Ok m ->
  dict_get m w 0 == popularity (get_words data) (occurrences w (get_words data)).
Proof.
  rewrite words_counter_Ok. intros [= <-].
  rewrite popularity_get, Counter_get. reflexivity.
Qed.

Lemma len_pos {A : Type} (l : list A) : l <> [] -> (0 < len l)%Z.
Proof. destruct l; [congruence | unfold len; simpl; lia]. Qed.

Lemma popularity_pos (words : list str) (y : Z) :
  (0 < y)%Z -> words <> [] -> 0 < popularity words y.
Proof.
  intros Hy Hw. apply len_pos in Hw. unfold popularity.
  apply Qlt_shift_div_l.
  - change 0 with (inject_Z 0). rewrite <- Zlt_Qlt. assumption.
  - rewrite Qmult_0_l. change 0 with (inject_Z 0). rewrite <- Zlt_Qlt. assumption.
Qed.

Lemma popularity_zero (words : list str) : popularity words 0 == 0.
Proof. unfold popularity, Qdiv. apply Qmult_0_l. Qed.

Lemma words_counter_pos (data : list row) (m : dict Q) (w : str) :
  words_counter data = Ok m ->
  (0 < dict_get m w 0 <-> In w (get_words data))
  /\ (~ In w (get_words data) -> dict_get m w 0 == 0)
  /\ 0 <= dict_get m w 0.
Proof.
  intros Hm. pose proof (words_counter_get data m w Hm) as Hget.
  pose proof (occurrences_nonneg w (get_words data)) as Hnn.
  destruct (Z.eq_dec (occurrences w (get_words data)) 0) as [E|E].
  - assert (Hnin : ~ In w (get_words data)).
    { rewrite <- occurrences_pos. lia. }
    rewrite E, popularity_zero in Hget.
    split; [split|split].
    + rewrite Hget. intros H. exfalso. revert H. apply Qlt_irrefl.
    + tauto.
    + intros _. exact Hget.
    + rewrite Hget. apply Qle_refl.
  - assert (Hin : In w (get_words data)) by (apply occurrences_pos; lia).
    assert (Hpos : 0 < dict_get m w 0).
    { rewrite Hget. apply popularity_pos; [lia|].
      intros Hnil; rewrite Hnil in Hin; exact Hin. }
    split; [tauto|]. split; [tauto|]. apply Qlt_le_weak, Hpos.
Qed.

Lemma popularity_sum (words : list str) (c : dict Z) :
  qsum (dict_values (map (fun '(x, y) => (x, popularity words y)) c))
  == popularity words (zsum (dict_values c)).
Proof.
  induction c as [|[x y] c IH]; simpl.
  - symmetry. apply popularity_zero.
  - unfold qsum in IH. rewrite IH. unfold popularity.
    rewrite inject_Z_plus. unfold Qdiv. ring.
Qed.

Lemma popularity_whole (words : list str) :
  words <> [] -> popularity words (len words) == 1.
Proof.
  intros Hw. apply len_pos in Hw. unfold popularity.
  apply Qmult_inv_r. intros H.
  unfold Qeq in H. simpl in H. lia.
Qed.

Lemma popularity_keys (words : list str) (c : dict Z) :
  dict_keys (map (fun '(x, y) => (x, popularity words y)) c) = dict_keys c.
Proof.
  unfold dict_keys. rewrite map_map. apply map_ext. intros [x y]. reflexivity.
Qed.

(** C4. When the rows of a partition give at least one token, the values of
    the map that [words_counter] returns add up to 1; the map has one entry
    per word, and the value of a word is the number of its occurrences among
    the tokens divided by the number of tokens. *)
Theorem words_counter_sums_to_one (data : list row) :
  get_words data <> [] ->
  exists m : dict Q,
    words_counter data = Ok m
    /\ qsum (dict_values m) == 1
    /\ NoDup (dict_keys m)
    /\ forall w : str,
         dict_get m w 0
         == inject_Z (occurrences w (get_words data))
            / inject_Z (len (get_words data)).
Proof.
  intros Hne. eexists. split; [apply words_counter_Ok|].
  split; [|split].
  - rewrite popularity_sum, Counter_sum. apply popularity_whole, Hne.
  - rewrite popularity_keys. apply Counter_NoDup.
  - intros w. rewrite popularity_get, Counter_get. reflexivity.
Qed.

Lemma words_counter_sums_to_one_witness :
  get_words [header_row; other_row] <> []
  /\ exists m : dict Q,
       words_counter [header_row; other_row] = Ok m
       /\ qsum (dict_values m) == 1
       /\ NoDup (dict_keys m)
       /\ forall w : str,
            dict_get m w 0
            == inject_Z (occurrences w (get_words [header_row; other_row]))
               / inject_Z (len (get_words [header_row; other_row])).
Proof.
  assert (H : get_words [header_row; other_row] <> []) by (vm_compute; discriminate).
  split; [exact H | exact (words_counter_sums_to_one _ H)].
Defined.

(** C10, as the code has it.  When the rows of a partition give no token,
    [words_counter] returns the empty map: the counter has no item, so the
    division of the comprehension is never evaluated. *)
Theorem words_counter_no_tokens (data : list row) :
  get_words data = [] -> words_counter data = Ok [].
Proof.
  intros H. rewrite words_counter_Ok, H. reflexivity.
Qed.

Lemma words_counter_no_tokens_witness :
  get_words [one_year_row] = [] /\ words_counter [one_year_row] = Ok [].
Proof.
  assert (H : get_words [one_year_row] = []) by reflexivity.
  split; [exact H | exact (words_counter_no_tokens _ H)].
Defined.

(** C10, as it is stated, fails on the partition with no rows: it gives no
    token and [words_counter] returns the empty map instead of raising. *)
Lemma words_counter_no_rows_does_not_raise :
  get_words [] = []
  /\ words_counter [] = Ok []
  /\ words_counter [] <> Raise ZeroDivisionError.
Proof.
  split; [reflexivity|]. split; [reflexivity | discriminate].
Qed.

(** ** Word weights *)

Lemma float_truediv_Ok (a b : Q) : 0 < b -> float_truediv a b = Ok (a / b).
Proof.
  intros Hb. unfold float_truediv.
  destruct (Qeq_bool b 0) eqn:E; [|reflexivity].
  apply Qeq_bool_iff in E. rewrite E in Hb. exfalso. revert Hb. apply Qlt_irrefl.
Qed.

Lemma word_weights_loop_Ok (hw ow : dict Q) (words : list str) (acc : dict Q) :
  Forall (fun word => 0 < dict_get hw word 0 + dict_get ow word 0) words ->
  exists ww, word_weights_loop hw ow words acc = Ok ww.
Proof.
  intros H. revert acc. induction H as [|word words Hw _ IH]; intros acc; simpl.
  - eexists; reflexivity.
  - unfold weight. rewrite float_truediv_Ok by exact Hw. simpl. apply IH.
Qed.

Lemma Qplus_pos_nonneg (a b : Q) : 0 < a -> 0 <= b -> 0 < a + b.
Proof. intros; lra. Qed.

(** C5. Both popularity maps of a sampled dataset are built, every word of
    [all_words] has a positive header popularity plus other popularity, and
    so the loop over [all_words] divides by no zero and returns the
    weights. *)
Theorem all_words_popularity_positive (data_sampled : list row) :
  exists header_words other_words ww : dict Q,
    words_counter (data_headers data_sampled) = Ok header_words
    /\ words_counter (data_others data_sampled) = Ok other_words
    /\ Forall (fun word =>
                 0 < dict_get header_words word 0 + dict_get other_words word 0)
              (all_words data_sampled)
    /\ word_weights_loop header_words other_words (all_words data_sampled) []
       = Ok ww
    /\ word_weights data_sampled = Ok ww.
Proof.
  pose proof (words_counter_Ok (data_headers data_sampled)) as Hh.
  pose proof (words_counter_Ok (data_others data_sampled)) as Ho.
  set (hw := map _ _) in Hh. set (ow := map _ _) in Ho.
  assert (Hpos : Forall (fun word => 0 < dict_get hw word 0 + dict_get ow word 0)
                        (all_words data_sampled)).
  { apply Forall_forall. intros word Hin.
    apply set_of_In, get_words_partition in Hin.
    destruct (words_counter_pos _ _ word Hh) as [Hh1 [_ Hh2]].
    destruct (words_counter_pos _ _ word Ho) as [Ho1 [_ Ho2]].
    destruct Hin as [Hin|Hin].
    - apply Hh1 in Hin. lra.
    - apply Ho1 in Hin. lra. }
  destruct (word_weights_loop_Ok hw ow _ [] Hpos) as [ww Hww].
  exists hw, ow, ww. repeat split; auto.
  unfold word_weights. rewrite Hh, Ho. exact Hww.
Qed.

Lemma Qdiv_eq_iff (n d c : Q) : 0 < d -> (n / d == c <-> n == c * d).
Proof.
  intros Hd. assert (Hd' : ~ d == 0) by lra. split; intros H.
  - rewrite <- H. field. exact Hd'.
  - rewrite H. field. exact Hd'.
Qed.

Lemma ratio_range (h o : Q) :
  0 <= h -> 0 <= o -> 0 < h + o ->
  - (1) <= (h - o) / (h + o) <= 1
  /\ ((h - o) / (h + o) == 1 <-> 0 < h /\ o == 0)
  /\ ((h - o) / (h + o) == - (1) <-> 0 < o /\ h == 0).
Proof.
  intros Hh Ho Hd. split; [split|split].
  - apply Qle_shift_div_l; [exact Hd | lra].
  - apply Qle_shift_div_r; [exact Hd | lra].
  - rewrite Qdiv_eq_iff by exact Hd. split; [intros H | intros [H1 H2]]; [split|]; lra.
  - rewrite Qdiv_eq_iff by exact Hd. split; [intros H | intros [H1 H2]]; [split|]; lra.
Qed.

(** C2. Where the header popularity [h] and the other popularity [o] of a
    word (0 for a word the map lacks) have a positive sum, the weight
    [(h - o) / (h + o)] is computed and lies between -1 and 1; it is 1
    exactly when [h > 0] and [o = 0], that is when the word occurs in the
    headers partition only, and -1 exactly when [o > 0] and [h = 0], that is
    when it occurs in the others partition only. *)
Theorem weight_range (headers others : list row) (header_words other_words : dict Q)
    (word : str) :
  words_counter headers = Ok header_words ->
  words_counter others = Ok other_words ->
  0 < dict_get header_words word 0 + dict_get other_words word 0 ->
  exists w : Q,
    weight header_words other_words word = Ok w
    /\ - (1) <= w <= 1
    /\ (w == 1 <->
        0 < dict_get header_words word 0 /\ dict_get other_words word 0 == 0)
    /\ (w == - (1) <->
        0 < dict_get other_words word 0 /\ dict_get header_words word 0 == 0)
    /\ (w == 1 <->
        In word (get_words headers) /\ ~ In word (get_words others))
    /\ (w == - (1) <->
        In word (get_words others) /\ ~ In word (get_words headers)).
Proof.
  intros Hh Ho Hd.
  destruct (words_counter_pos _ _ word Hh) as [Hh1 [Hh0 Hh2]].
  destruct (words_counter_pos _ _ word Ho) as [Ho1 [Ho0 Ho2]].
  set (h := dict_get header_words word 0) in *.
  set (o := dict_get other_words word 0) in *.
  destruct (ratio_range h o Hh2 Ho2 Hd) as [Hr [Hone Hmone]].
  exists ((h - o) / (h + o)).
  split; [unfold weight; apply float_truediv_Ok, Hd|].
  split; [exact Hr|]. split; [exact Hone|]. split; [exact Hmone|].
  assert (Hzero : forall (q : Q) (P : Prop), (0 < q <-> P) -> (~ P -> q == 0) ->
                    0 <= q -> (q == 0 <-> ~ P)).
  { intros q P H1 H2 H3. split; [|exact H2].
    intros Hq HP. apply H1 in HP. lra. }
  split.
  - rewrite Hone, Hh1, (Hzero o _ Ho1 Ho0 Ho2). tauto.
  - rewrite Hmone, Ho1, (Hzero h _ Hh1 Hh0 Hh2). tauto.
Qed.

Lemma weight_range_witness :
  let hw := map_of (words_counter [header_row]) in
  let ow := map_of (words_counter [other_row]) in
  words_counter [header_row] = Ok hw
  /\ words_counter [other_row] = Ok ow
  /\ 0 < dict_get hw (s "name") 0 + dict_get ow (s "name") 0
  /\ exists w : Q, weight hw ow (s "name") = Ok w /\ w == 1.
Proof.
  intros hw ow.
  assert (Hd : 0 < dict_get hw (s "name") 0 + dict_get ow (s "name") 0)
    by (vm_compute; reflexivity).
  split; [reflexivity|]. split; [reflexivity|]. split; [exact Hd|].
  destruct (weight_range [header_row] [other_row] hw ow (s "name")
              eq_refl eq_refl Hd) as [w [Hw [_ [Hone _]]]].
  exists w. split; [exact Hw|]. apply Hone. split.
  - vm_compute; reflexivity.
  - vm_compute; reflexivity.
Defined.

(** ** The first feature loop *)





Lemma np_true_divide_num (a n : Z) :
  (0 < n)%Z -> np_true_divide a n = num (inject_Z a / inject_Z n).
Proof.
  intros Hn. unfold np_true_divide.
  destruct (n =? 0)%Z eqn:E; [apply Z.eqb_eq in E; lia | reflexivity].
Qed.


Lemma np_array_len (values : list str) : len (np_array values) = len values.
Proof. unfold len, np_array. rewrite length_map. reflexivity. Qed.






(** C1, on the code.  On a row with no values the first loop raises: its
    divisions are not behind a length check, and [np.vectorize] refuses the
    empty array.  The other two loops, which test the length first, return
    [nan] on the same row. *)
Theorem first_loop_raises_on_no_values (word_weights : dict Q) :
  first_loop_body no_values_row = Raise ValueError
  /\ first_loop [header_row; no_values_row] = Raise ValueError
  /\ weights_loop_body word_weights no_values_row = Ok (nan, nan, nan)
  /\ dates_loop_body no_values_row = Ok (nan, nan).
Proof. repeat split. Qed.

(** C3, on the code.  The value "123.45" has a decimal point and is no
    string of digits, yet the loop counts it among the long integers: it
    tests the digits after dropping the first point, so the ratio of the
    row is 1 where the described ratio is 0.  The four digits "1990" are
    not counted. *)
Theorem long_ints_counts_decimal_point :
  is_long_int (s "123.45") = true
  /\ long_int_described (s "123.45") = false
  /\ is_long_int (s "1990") = false
  /\ (exists f : first_features,
        first_loop_body decimal_row = Ok f /\ long_ints f = num (1 # 1))
  /\ long_int_ratio_described (values decimal_row) = num (0 # 1).
Proof.
  repeat split. eexists. split; reflexivity.
Qed.

(** ** The word weight loop and the date loop *)



(** ** More on the tokenizer *)

Lemma Char_lower_idem (c : ascii) : Char.lower (Char.lower c) = Char.lower c.
Proof. each_char c. Qed.

Lemma translate_char_kept (c : ascii) :
  Char.isspace (translate_char c) = false -> translate_char c = c.
Proof. each_char c. Qed.

Lemma words_from_values_app (a b : list str) :
  words_from_values (a ++ b) = words_from_values a ++ words_from_values b.
Proof.
  unfold words_from_values. rewrite map_app, concat_app, filter_app. reflexivity.
Qed.

Lemma words_from_values_cons (x : str) (values : list str) :
  words_from_values (x :: values)
  = words_from_values [x] ++ words_from_values values.
Proof. apply (words_from_values_app [x] values). Qed.

(** X1. [get_words] tokenizes all the values of all the rows at once, in row
    order: the words of two lists of rows put end to end are the words of the
    first followed by the words of the second. *)
Theorem get_words_all_values (data more : list row) :
  get_words data = words_from_values (flat_map values data)
  /\ get_words (data ++ more) = get_words data ++ get_words more.
Proof.
  rewrite !get_words_flat_map. split.
  - induction data as [|r data IH]; [reflexivity|].
    simpl. rewrite words_from_values_app, IH. reflexivity.
  - apply flat_map_app.
Qed.

Lemma split_from_infix (x cur w : str) :
  In w (split_from cur x) ->
  exists pre post : str, rev cur ++ x = pre ++ w ++ post.
Proof.
  revert cur. induction x as [|c x IH]; intros cur Hin; simpl in Hin.
  - destruct cur as [|d cur]; [contradiction|].
    destruct Hin as [<-|[]]. exists [], []. rewrite !app_nil_r. reflexivity.
  - destruct (Char.isspace c).
    + destruct cur as [|d cur].
      * destruct (IH [] Hin) as [pre [post E]]. simpl in E.
        exists (c :: pre), post. simpl. rewrite E. reflexivity.
      * destruct Hin as [<-|Hin].
        -- exists [], (c :: x). reflexivity.
        -- destruct (IH [] Hin) as [pre [post E]]. simpl in E.
           exists (rev (d :: cur) ++ c :: pre), post.
           rewrite E, <- app_assoc. reflexivity.
    + destruct (IH (c :: cur) Hin) as [pre [post E]].
      exists pre, post. rewrite <- E. simpl. rewrite <- app_assoc. reflexivity.
Qed.

Lemma map_translate_kept (y0 y : str) :
  map translate_char y0 = y ->
  Forall (fun c => Char.isspace c = false) y -> y0 = y.
Proof.
  intros <- H. induction y0 as [|c y0 IH]; [reflexivity|].
  simpl in *. inversion H; subst.
  rewrite translate_char_kept by assumption. f_equal. apply IH. assumption.
Qed.

(** X2. A token that [words_from_values] returns is cut out of one of the
    values: it is a contiguous piece of that value in lower case, it is not
    empty, it holds no whitespace and [str.lower] leaves it as it is. *)
Theorem words_from_values_pieces (values : list str) :
  Forall (fun y =>
            y <> []
            /\ lower y = y
            /\ Forall (fun c => Char.isspace c = false) y
            /\ exists (x pre post : str),
                 In x values /\ lower x = pre ++ y ++ post)
         (words_from_values values).
Proof.
  apply Forall_forall. intros y Hy.
  pose proof (words_from_values_tokens values) as Htok.
  rewrite Forall_forall in Htok. specialize (Htok y Hy).
  unfold is_token in Htok. apply andb_true_iff in Htok.
  destruct Htok as [Hne Hall]. rewrite forallb_forall in Hall.
  assert (Hc : forall c, In c y -> Char.isspace c = false /\ Char.lower c = c).
  { intros c Hin. apply Hall, token_char_spec in Hin. tauto. }
  assert (Hsp : Forall (fun c => Char.isspace c = false) y).
  { apply Forall_forall. intros c Hin. apply Hc, Hin. }
  split; [destruct y; [discriminate | discriminate]|].
  split.
  { unfold lower. rewrite <- (map_id y) at 2. apply map_ext_in.
    intros c Hin. apply Hc, Hin. }
  split; [exact Hsp|].
  unfold words_from_values in Hy. apply filter_In in Hy. destruct Hy as [Hy _].
  apply in_concat in Hy. destruct Hy as [ws [Hws Hy]].
  apply in_map_iff in Hws. destruct Hws as [x [<- Hx]].
  apply split_from_infix in Hy. destruct Hy as [pre [post E]].
  simpl in E. rewrite translate_map in E.
  apply map_eq_app in E. destruct E as [pre0 [rest [E0 [_ E1]]]].
  apply map_eq_app in E1. destruct E1 as [y0 [post0 [E1 [E2 _]]]].
  apply map_translate_kept in E2; [|exact Hsp]. subst.
  exists x, pre0, post0. split; [exact Hx | exact E0].
Qed.

(** X3. The tokenizer does not see case: lower-casing the values first gives
    the same tokens, and two lists of values that differ in case only give
    the same tokens. *)
Theorem words_from_values_case (values values' : list str) :
  words_from_values (map lower values) = words_from_values values
  /\ (map lower values = map lower values' ->
      words_from_values values = words_from_values values').
Proof.
  assert (Hlow : forall vs,
            words_from_values (map lower vs) = words_from_values vs).
  { intros vs. unfold words_from_values. rewrite map_map.
    f_equal. f_equal. apply map_ext. intros x. f_equal. f_equal.
    unfold lower. rewrite map_map. apply map_ext, Char_lower_idem. }
  split; [apply Hlow|].
  intros H. rewrite <- (Hlow values), H. apply Hlow.
Qed.

Lemma split_from_space (a b cur : str) (c : ascii) :
  Char.isspace c = true ->
  split_from cur (a ++ c :: b) = split_from cur a ++ split_from [] b.
Proof.
  intros Hc. revert cur. induction a as [|d a IH]; intros cur; simpl.
  - rewrite Hc. destruct cur; reflexivity.
  - destruct (Char.isspace d).
    + destruct cur; rewrite IH; reflexivity.
    + apply IH.
Qed.

Lemma words_from_values_space (a b : str) :
  words_from_values [a ++ s " " ++ b]
  = words_from_values [a] ++ words_from_values [b].
Proof.
  unfold words_from_values. simpl. rewrite !app_nil_r.
  rewrite translate_map. unfold lower. rewrite !map_app. simpl.
  unfold split. rewrite split_from_space by reflexivity.
  rewrite filter_app, <- !translate_map. reflexivity.
Qed.

(** X4. The tokens of a row can be read off the string that the date loop
    builds: tokenizing the values joined by spaces gives the tokens of the
    values. *)
Theorem words_from_values_join (values : list str) :
  words_from_values [join (s " ") values] = words_from_values values.
Proof.
  induction values as [|x values IH]; [reflexivity|].
  destruct values as [|x' values]; [reflexivity|].
  change (join (s " ") (x :: x' :: values))
    with (x ++ s " " ++ join (s " ") (x' :: values)).
  rewrite words_from_values_space, IH. symmetry. apply words_from_values_cons.
Qed.

(** ** More on the popularity maps *)

Lemma dict_get_absent {V : Type} (d : dict V) (k : str) (dflt : V) :
  ~ In k (dict_keys d) -> dict_get d k dflt = dflt.
Proof.
  induction d as [|[k0 v0] d IH]; simpl; [reflexivity|].
  intros Hn. destruct (str_eqb k0 k) eqn:E.
  - apply str_eqb_eq in E. tauto.
  - apply IH. tauto.
Qed.

Lemma dict_get_item {V : Type} (d : dict V) (k : str) (v dflt : V) :
  NoDup (dict_keys d) -> In (k, v) d -> dict_get d k dflt = v.
Proof.
  induction d as [|[k0 v0] d IH]; simpl; [tauto|].
  intros Hnd [E|Hin].
  - inversion E; subst. rewrite str_eqb_refl. reflexivity.
  - inversion Hnd as [|? ? Hk Hnd']; subst.
    destruct (str_eqb k0 k) eqn:E.
    + apply str_eqb_eq in E; subst. exfalso. apply Hk.
      apply (in_map fst) in Hin. exact Hin.
    + apply IH; assumption.
Qed.

Lemma counter_fold_keys (words : list str) (c : dict Z) (k : str) :
  In k (dict_keys (fold_left count_step words c))
  <-> In k (dict_keys c) \/ In k words.
Proof.
  revert c. induction words as [|x words IH]; intros c; simpl; [tauto|].
  rewrite IH. unfold count_step. rewrite dict_set_keys.
  destruct (existsb (str_eqb x) (dict_keys c)) eqn:E.
  - apply existsb_str_eqb in E. split; [tauto|].
    intros [H|[<-|H]]; auto.
  - rewrite in_app_iff. simpl. tauto.
Qed.

Lemma Counter_keys (words : list str) (k : str) :
  In k (dict_keys (Counter words)) <-> In k words.
Proof. unfold Counter. rewrite counter_fold_keys. simpl. tauto. Qed.

(** X5. [words_counter] returns on every list of rows.  The keys of the map
    are the tokens of the data, each once; every value it stores is above 0
    and at most 1; a word that is no token of the data is not in the map, so
    [get] returns the default for it. *)
Theorem words_counter_keys_and_values (data : list row) :
  exists m : dict Q,
    words_counter data = Ok m
    /\ NoDup (dict_keys m)
    /\ (forall w : str, In w (dict_keys m) <-> In w (get_words data))
    /\ Forall (fun item => 0 < snd item <= 1) m
    /\ (forall (w : str) (dflt : Q),
          ~ In w (get_words data) -> dict_get m w dflt = dflt).
Proof.
  pose proof (words_counter_Ok data) as Hm. set (m := map _ _) in Hm.
  assert (Hkeys : dict_keys m = dict_keys (Counter (get_words data)))
    by apply popularity_keys.
  assert (Hnd : NoDup (dict_keys m)) by (rewrite Hkeys; apply Counter_NoDup).
  assert (Hin : forall w, In w (dict_keys m) <-> In w (get_words data)).
  { intros w. rewrite Hkeys. apply Counter_keys. }
  exists m. split; [exact Hm|]. split; [exact Hnd|]. split; [exact Hin|].
  split.
  - apply Forall_forall. intros [w v] Hitem. simpl.
    assert (Hw : In w (get_words data)).
    { apply Hin. apply (in_map fst) in Hitem. exact Hitem. }
    pose proof (dict_get_item m w v 0 Hnd Hitem) as Hget.
    pose proof (words_counter_get data m w Hm) as Hpop.
    rewrite Hget in Hpop. rewrite Hpop.
    assert (Hne : get_words data <> []) by (intros E; rewrite E in Hw; exact Hw).
    split.
    + apply popularity_pos; [apply occurrences_pos, Hw | exact Hne].
    + unfold popularity. pose proof (len_pos _ Hne) as Hl.
      apply Qle_shift_div_r.
      * change 0 with (inject_Z 0). rewrite <- Zlt_Qlt. exact Hl.
      * rewrite Qmult_1_l, <- Zle_Qle. apply occurrences_le.
  - intros w dflt Hw. apply dict_get_absent. rewrite Hin. exact Hw.
Qed.

Lemma occurrences_app (w : str) (a b : list str) :
  occurrences w (a ++ b) = (occurrences w a + occurrences w b)%Z.
Proof.
  unfold occurrences, len. rewrite filter_app, length_app. lia.
Qed.

Lemma occurrences_Permutation (w : str) (a b : list str) :
  Permutation a b -> occurrences w a = occurrences w b.
Proof.
  induction 1 as [|x a b _ IH|x x' a|a b c _ IH1 _ IH2].
  - reflexivity.
  - rewrite !occurrences_cons, IH. reflexivity.
  - rewrite !occurrences_cons. lia.
  - congruence.
Qed.

(** X6. The popularity of a word does not depend on the order of the rows:
    on two lists of the same rows in different orders [words_counter]
    returns maps in which every word has the same value. *)
Theorem words_counter_row_order (data data' : list row) (w : str) :
  Permutation data data' ->
  exists m m' : dict Q,
    words_counter data = Ok m
    /\ words_counter data' = Ok m'
    /\ dict_get m w 0 == dict_get m' w 0.
Proof.
  intros Hp.
  pose proof (words_counter_Ok data) as Hm. set (m := map _ _) in Hm.
  pose proof (words_counter_Ok data') as Hm'. set (m' := map _ _) in Hm'.
  exists m, m'. split; [exact Hm|]. split; [exact Hm'|].
  rewrite (words_counter_get _ _ w Hm), (words_counter_get _ _ w Hm').
  assert (Hw : Permutation (get_words data) (get_words data')).
  { rewrite !get_words_flat_map. apply Permutation_flat_map, Hp. }
  unfold popularity, len.
  rewrite (occurrences_Permutation w _ _ Hw), (Permutation_length Hw).
  reflexivity.
Qed.

Lemma words_counter_row_order_witness :
  Permutation [header_row; other_row] [other_row; header_row]
  /\ exists m m' : dict Q,
       words_counter [header_row; other_row] = Ok m
       /\ words_counter [other_row; header_row] = Ok m'
       /\ dict_get m (s "age") 0 == dict_get m' (s "age") 0.
Proof.
  assert (H : Permutation [header_row; other_row] [other_row; header_row])
    by apply perm_swap.
  split; [exact H | exact (words_counter_row_order _ _ (s "age") H)].
Defined.

(** X7. The two partitions split the sample: each row is in one of them, and
    each token of the sample is a token of one of them, so the numbers of
    rows, of tokens and of occurrences of a word in the two partitions add
    up to those of the sample. *)
Theorem partitions_add_up (data_sampled : list row) (w : str) :
  (length data_sampled
   = length (data_headers data_sampled) + length (data_others data_sampled))%nat
  /\ len (get_words data_sampled)
     = (len (get_words (data_headers data_sampled))
        + len (get_words (data_others data_sampled)))%Z
  /\ occurrences w (get_words data_sampled)
     = (occurrences w (get_words (data_headers data_sampled))
        + occurrences w (get_words (data_others data_sampled)))%Z.
Proof.
  rewrite !get_words_flat_map. unfold data_headers, data_others.
  induction data_sampled as [|r data IH]; [repeat split|].
  destruct IH as [IH1 [IH2 IH3]]. unfold len in *.
  cbn [filter flat_map]. destruct (type r); cbn [negb flat_map length];
    rewrite ?occurrences_app, ?length_app; repeat split; lia.
Qed.

(** ** More on the word weights *)

Lemma weight_Ok_ratio (hw ow : dict Q) (word : str) (w : Q) :
  weight hw ow word = Ok w -> w = ratio hw ow word.
Proof.
  unfold weight, float_truediv, ratio.
  destruct (Qeq_bool _ 0); [discriminate|]. intros [= <-]. reflexivity.
Qed.

Lemma word_weights_loop_get (hw ow : dict Q) (words : list str) :
  forall (acc ww : dict Q) (w : str) (dflt : Q),
    word_weights_loop hw ow words acc = Ok ww ->
    dict_get ww w dflt
    = if existsb (str_eqb w) words then ratio hw ow w else dict_get acc w dflt.
Proof.
  induction words as [|word words IH]; intros acc ww w dflt H; simpl in H.
  - injection H as <-. reflexivity.
  - destruct (weight hw ow word) as [v|e] eqn:Ev; [|discriminate].
    simpl in H. rewrite (IH _ _ w dflt H). simpl.
    destruct (existsb (str_eqb w) words); [rewrite orb_true_r; reflexivity|].
    rewrite orb_false_r, dict_get_set, (str_eqb_sym w word).
    destruct (str_eqb word w) eqn:E; [|reflexivity].
    apply str_eqb_eq in E; subst. apply weight_Ok_ratio, Ev.
Qed.

Lemma word_weights_loop_keys (hw ow : dict Q) (words : list str) :
  forall (acc ww : dict Q),
    word_weights_loop hw ow words acc = Ok ww ->
    (NoDup (dict_keys acc) -> NoDup (dict_keys ww))
    /\ forall w, In w (dict_keys ww) <-> In w (dict_keys acc) \/ In w words.
Proof.
  induction words as [|word words IH]; intros acc ww H; simpl in H.
  - injection H as <-. simpl. split; [auto | tauto].
  - destruct (weight hw ow word) as [v|e]; [|discriminate].
    simpl in H. destruct (IH _ _ H) as [Hnd Hk]. split.
    + intros Ha. apply Hnd, dict_set_NoDup, Ha.
    + intros w. rewrite Hk, dict_set_keys.
      destruct (existsb (str_eqb word) (dict_keys acc)) eqn:E.
      * apply existsb_str_eqb in E. simpl. split; [tauto|].
        intros [Hw|[<-|Hw]]; auto.
      * rewrite in_app_iff. simpl. tauto.
Qed.

Lemma existsb_all_words (data : list row) (w : str) :
  existsb (str_eqb w) (all_words data) = true <-> In w (get_words data).
Proof. rewrite existsb_str_eqb. apply set_of_In. Qed.

Lemma word_weights_parts (data_sampled : list row) :
  exists hw ow ww : dict Q,
    words_counter (data_headers data_sampled) = Ok hw
    /\ words_counter (data_others data_sampled) = Ok ow
    /\ word_weights_loop hw ow (all_words data_sampled) [] = Ok ww
    /\ word_weights data_sampled = Ok ww
    /\ (forall word, In word (get_words data_sampled) ->
          0 <= dict_get hw word 0 /\ 0 <= dict_get ow word 0
          /\ 0 < dict_get hw word 0 + dict_get ow word 0)
    /\ (forall word, In word (get_words data_sampled) ->
          dict_get ww word 0 = ratio hw ow word)
    /\ (forall word, ~ In word (get_words data_sampled) ->
          dict_get ww word 0 = 0).
Proof.
  pose proof (words_counter_Ok (data_headers data_sampled)) as Hh.
  pose proof (words_counter_Ok (data_others data_sampled)) as Ho.
  set (hw := map _ _) in Hh. set (ow := map _ _) in Ho.
  assert (Hpos : forall word, In word (get_words data_sampled) ->
            0 <= dict_get hw word 0 /\ 0 <= dict_get ow word 0
            /\ 0 < dict_get hw word 0 + dict_get ow word 0).
  { intros word Hin. apply get_words_partition in Hin.
    destruct (words_counter_pos _ _ word Hh) as [Hh1 [_ Hh2]].
    destruct (words_counter_pos _ _ word Ho) as [Ho1 [_ Ho2]].
    split; [exact Hh2|]. split; [exact Ho2|].
    destruct Hin as [Hin|Hin]; [apply Hh1 in Hin | apply Ho1 in Hin]; lra. }
  destruct (word_weights_loop_Ok hw ow (all_words data_sampled) []) as [ww Hww].
  { apply Forall_forall. intros word Hin. apply Hpos, set_of_In, Hin. }
  exists hw, ow, ww.
  split; [exact Hh|]. split; [exact Ho|]. split; [exact Hww|].
  split; [unfold word_weights; rewrite Hh, Ho; exact Hww|].
  split; [exact Hpos|].
  split; intros word Hin;
    rewrite (word_weights_loop_get _ _ _ _ _ word 0 Hww).
  - rewrite (proj2 (existsb_all_words _ _) Hin). reflexivity.
  - destruct (existsb (str_eqb word) (all_words data_sampled)) eqn:E;
      [|reflexivity].
    apply existsb_all_words in E. contradiction.
Qed.

Lemma word_weights_range (data_sampled : list row) :
  exists ww : dict Q,
    word_weights data_sampled = Ok ww
    /\ forall word, - (1) <= dict_get ww word 0 <= 1.
Proof.
  destruct (word_weights_parts data_sampled)
    as [hw [ow [ww [_ [_ [_ [Hw [Hpos [Hin Hout]]]]]]]]].
  exists ww. split; [exact Hw|]. intros word.
  destruct (in_dec (list_eq_dec ascii_dec) word (get_words data_sampled)) as [H|H].
  - rewrite (Hin word H). destruct (Hpos word H) as [H1 [H2 H3]].
    apply (ratio_range _ _ H1 H2 H3).
  - rewrite (Hout word H). split; lra.
Qed.

(** X8. The weight map of a sample.  [word_weights] returns a map whose keys
    are the tokens of the sample, each once.  Looking up a token gives
    [(h - o) / (h + o)] for its two popularities, a number between -1 and 1;
    looking up any other word with [get(word, 0)] gives 0. *)
Theorem word_weights_lookup (data_sampled : list row) :
  exists header_words other_words ww : dict Q,
    words_counter (data_headers data_sampled) = Ok header_words
    /\ words_counter (data_others data_sampled) = Ok other_words
    /\ word_weights data_sampled = Ok ww
    /\ NoDup (dict_keys ww)
    /\ forall word : str,
         (In word (dict_keys ww) <-> In word (get_words data_sampled))
         /\ (In word (get_words data_sampled) ->
             dict_get ww word 0 = ratio header_words other_words word
             /\ - (1) <= dict_get ww word 0 <= 1)
         /\ (~ In word (get_words data_sampled) -> dict_get ww word 0 = 0).
Proof.
  destruct (word_weights_parts data_sampled)
    as [hw [ow [ww [Hh [Ho [Hl [Hw [Hpos [Hin Hout]]]]]]]]].
  destruct (word_weights_loop_keys _ _ _ _ _ Hl) as [Hnd Hk].
  exists hw, ow, ww. split; [exact Hh|]. split; [exact Ho|]. split; [exact Hw|].
  split; [apply Hnd; constructor|].
  intros word. split; [|split].
  - rewrite Hk. simpl. unfold all_words. rewrite set_of_In. tauto.
  - intros H. split; [apply Hin, H|]. rewrite (Hin word H).
    destruct (Hpos word H) as [H1 [H2 H3]]. apply (ratio_range _ _ H1 H2 H3).
  - apply Hout.
Qed.

Lemma get_words_relabel (data : list row) :
  get_words (map relabel data) = get_words data.
Proof.
  rewrite !get_words_flat_map. induction data as [|r data IH]; [reflexivity|].
  simpl. rewrite IH. reflexivity.
Qed.

Lemma words_counter_same_words (data data' : list row) :
  get_words data = get_words data' -> words_counter data = words_counter data'.
Proof. unfold words_counter. intros ->. reflexivity. Qed.

Lemma partitions_relabel (data : list row) :
  get_words (data_headers (map relabel data)) = get_words (data_others data)
  /\ get_words (data_others (map relabel data)) = get_words (data_headers data).
Proof.
  rewrite !get_words_flat_map. unfold data_headers, data_others.
  induction data as [|r data [IH1 IH2]]; [split; reflexivity|].
  cbn [map filter relabel type]. destruct (type r); cbn [negb filter flat_map values];
    rewrite ?IH1, ?IH2; split; reflexivity.
Qed.

(** X9. Exchanging the two labels of a sample changes the sign of every word
    weight: the map of the relabelled sample holds, for each word, the
    opposite of what the map of the sample holds. *)
Theorem word_weights_relabel (data_sampled : list row) :
  exists ww ww' : dict Q,
    word_weights data_sampled = Ok ww
    /\ word_weights (map relabel data_sampled) = Ok ww'
    /\ forall word : str, dict_get ww' word 0 == - dict_get ww word 0.
Proof.
  destruct (word_weights_parts data_sampled)
    as [hw [ow [ww [Hh [Ho [_ [Hw [Hpos [Hin Hout]]]]]]]]].
  destruct (word_weights_parts (map relabel data_sampled))
    as [hw' [ow' [ww' [Hh' [Ho' [_ [Hw' [_ [Hin' Hout']]]]]]]]].
  destruct (partitions_relabel data_sampled) as [E1 E2].
  rewrite (words_counter_same_words _ _ E1), Ho in Hh'. injection Hh' as <-.
  rewrite (words_counter_same_words _ _ E2), Hh in Ho'. injection Ho' as <-.
  exists ww, ww'. split; [exact Hw|]. split; [exact Hw'|].
  intros word. specialize (Hin' word). specialize (Hout' word).
  rewrite get_words_relabel in Hin', Hout'.
  destruct (in_dec (list_eq_dec ascii_dec) word (get_words data_sampled)) as [H|H].
  - rewrite (Hin word H), (Hin' H).
    destruct (Hpos word H) as [_ [_ Hd]].
    unfold ratio. field. repeat split; lra.
  - rewrite (Hout word H), (Hout' H). reflexivity.
Qed.

(** X10. A sample in which no row is a header: the map of the headers is
    empty, nothing raises, and every token of the sample gets the weight
    -1. *)
Theorem word_weights_without_headers (data_sampled : list row) :
  Forall (fun r => type r = false) data_sampled ->
  words_counter (data_headers data_sampled) = Ok []
  /\ exists ww : dict Q,
       word_weights data_sampled = Ok ww
       /\ Forall (fun item => snd item == - (1)) ww.
Proof.
  intros Hall.
  assert (Hnil : data_headers data_sampled = []).
  { unfold data_headers. induction Hall as [|r data Hr _ IH]; [reflexivity|].
    simpl. rewrite Hr. exact IH. }
  split; [rewrite Hnil; reflexivity|].
  destruct (word_weights_parts data_sampled)
    as [hw [ow [ww [Hh [Ho [Hl [Hw [Hpos [Hin _]]]]]]]]].
  destruct (word_weights_loop_keys _ _ _ _ _ Hl) as [Hnd Hk].
  rewrite Hnil in Hh. injection Hh as <-.
  exists ww. split; [exact Hw|].
  apply Forall_forall. intros [word v] Hitem. simpl.
  rewrite <- (dict_get_item ww word v 0 (Hnd (NoDup_nil _)) Hitem).
  assert (Hword : In word (get_words data_sampled)).
  { apply set_of_In. apply (in_map fst) in Hitem. apply Hk in Hitem.
    destruct Hitem as [[]|Hitem]. exact Hitem. }
  rewrite (Hin word Hword).
  destruct (Hpos word Hword) as [_ [_ Hd]]. cbn [dict_get] in Hd.
  unfold ratio. cbn [dict_get]. field. lra.
Qed.

Lemma word_weights_without_headers_witness :
  Forall (fun r => type r = false) only_others_sample
  /\ words_counter (data_headers only_others_sample) = Ok []
  /\ exists ww : dict Q,
       word_weights only_others_sample = Ok ww
       /\ Forall (fun item => snd item == - (1)) ww.
Proof.
  assert (H : Forall (fun r => type r = false) only_others_sample)
    by (repeat constructor).
  split; [exact H | exact (word_weights_without_headers _ H)].
Defined.

(** ** Loops over the sample *)

Section MapM.

Context {A B : Type}.
Variable f : A -> result B.

Lemma mapM_Ok (l : list A) :
  Forall (fun a => exists b, f a = Ok b) l ->
  exists bs, mapM f l = Ok bs /\ Forall2 (fun a b => f a = Ok b) l bs.
Proof.
  induction 1 as [|a l [b Hb] _ [bs [Hbs Hall]]].
  - exists []. split; [reflexivity | constructor].
  - exists (b :: bs). simpl. rewrite Hb, Hbs. split; [reflexivity|].
    constructor; assumption.
Qed.

Lemma mapM_Ok_inv (l : list A) (bs : list B) :
  mapM f l = Ok bs -> Forall2 (fun a b => f a = Ok b) l bs.
Proof.
  revert bs. induction l as [|a l IH]; intros bs; simpl.
  - intros [= <-]. constructor.
  - destruct (f a) as [b|e] eqn:Ea; [|discriminate]. simpl.
    destruct (mapM f l) as [bs'|e]; [|discriminate]. simpl.
    intros [= <-]. constructor; [exact Ea | apply IH; reflexivity].
Qed.

Lemma mapM_Raise (l : list A) (e : exn) :
  mapM f l = Raise e -> Exists (fun a => f a = Raise e) l.
Proof.
  induction l as [|a l IH]; simpl; [discriminate|].
  destruct (f a) as [b|e'] eqn:Ea; simpl.
  - destruct (mapM f l) as [bs|e'']; simpl; [discriminate|].
    intros [= ->]. right. apply IH. reflexivity.
  - intros [= ->]. left. exact Ea.
Qed.

Lemma mapM_Exists (l : list A) :
  Exists (fun a => exists e, f a = Raise e) l -> exists e, mapM f l = Raise e.
Proof.
  induction 1 as [a l [e He]|a l _ [e He]]; simpl.
  - exists e. rewrite He. reflexivity.
  - destruct (f a) as [b|e']; simpl; [|eauto].
    rewrite He. simpl. eauto.
Qed.

End MapM.

(** ** More on the first feature loop *)

Lemma first_loop_body_no_values (r : row) :
  values r = [] -> first_loop_body r = Raise ValueError.
Proof. unfold first_loop_body. intros ->. reflexivity. Qed.

Lemma first_loop_body_some_values (r : row) :
  values r <> [] ->
  exists f, first_loop_body r = Ok f
            /\ y f = type r /\ size f = len (values r).
Proof.
  intros Hne. unfold first_loop_body.
  destruct (values r) as [|v vs]; [contradiction|].
  cbn [np_array map np_vectorize bind].
  eexists. split; [reflexivity|]. cbn [y size].
  split; [reflexivity|]. unfold len. cbn [length]. rewrite length_map. reflexivity.
Qed.

(** X11. The first loop raises exactly when some row of the sample has no
    values; it returns exactly when every row has a value, and then it gives
    one record per row, in row order, with the row's label and its number of
    values. *)
Theorem first_loop_raises_iff (data_sampled : list row) :
  ((exists e, first_loop data_sampled = Raise e)
   <-> Exists (fun r => values r = []) data_sampled)
  /\ ((exists fs, first_loop data_sampled = Ok fs
                  /\ map y fs = map type data_sampled
                  /\ map size fs = map (fun r => len (values r)) data_sampled)
      <-> Forall (fun r => values r <> []) data_sampled).
Proof.
  unfold first_loop. split.
  - split.
    + intros [e He]. apply mapM_Raise in He.
      eapply Exists_impl; [|exact He]. intros r Hr.
      destruct (values r) eqn:Ev; [reflexivity|].
      destruct (first_loop_body_some_values r) as [f [Hf _]]; congruence.
    + intros Hex. apply mapM_Exists.
      eapply Exists_impl; [|exact Hex]. intros r Hr.
      exists ValueError. apply first_loop_body_no_values, Hr.
  - split.
    + intros [fs [Hfs _]]. apply mapM_Ok_inv in Hfs.
      induction Hfs as [|r f data fs Hf _ IH]; [constructor|].
      constructor; [|exact IH].
      intros Ev. rewrite first_loop_body_no_values in Hf by exact Ev. discriminate.
    + intros Hall.
      destruct (mapM_Ok first_loop_body data_sampled) as [fs [Hfs Hall2]].
      { eapply Forall_impl; [|exact Hall]. intros r Hr.
        destruct (first_loop_body_some_values r Hr) as [f [Hf _]]. eauto. }
      exists fs. split; [exact Hfs|].
      clear Hfs. induction Hall2 as [|r f data fs Hf _ IH].
      * split; reflexivity.
      * inversion Hall as [|? ? Hr Hall']; subst.
        destruct (first_loop_body_some_values r Hr) as [f' [Hf' [Hy Hs]]].
        rewrite Hf in Hf'. injection Hf' as <-.
        destruct (IH Hall') as [IH1 IH2].
        simpl. rewrite Hy, Hs, IH1, IH2. split; reflexivity.
Qed.

Lemma remove_first_absent (c : ascii) (x : str) :
  contains c x = false -> remove_first c x = x.
Proof.
  unfold contains. induction x as [|d x IH]; simpl; [reflexivity|].
  rewrite (Ascii.eqb_sym c d). destruct (Ascii.eqb d c); [discriminate|].
  simpl. intros H. rewrite IH by exact H. reflexivity.
Qed.

Lemma remove_first_present (c : ascii) (x : str) :
  contains c x = true <->
  exists a b : str, x = a ++ c :: b /\ contains c a = false.
Proof.
  unfold contains. induction x as [|d x IH]; simpl.
  - split; [discriminate | intros [[|? ?] [b [H _]]]; discriminate].
  - rewrite (Ascii.eqb_sym c d). destruct (Ascii.eqb d c) eqn:E.
    + apply Ascii.eqb_eq in E; subst. split; [|reflexivity].
      intros _. exists [], x. split; reflexivity.
    + simpl. rewrite IH. apply Ascii.eqb_neq in E. split.
      * intros [a [b [-> Ha]]]. exists (d :: a), b. split; [reflexivity|].
        simpl. rewrite (Ascii.eqb_sym c d), (proj2 (Ascii.eqb_neq d c) E). exact Ha.
      * intros [[|d' a] [b [H Ha]]]; [simpl in H; congruence|].
        injection H as <- ->. exists a, b. split; [reflexivity|].
        simpl in Ha. apply orb_false_iff in Ha. apply Ha.
Qed.

Lemma remove_first_app (c : ascii) (a b : str) :
  contains c a = false -> remove_first c (a ++ c :: b) = a ++ b.
Proof.
  unfold contains. induction a as [|d a IH]; simpl.
  - rewrite Ascii.eqb_refl. reflexivity.
  - rewrite (Ascii.eqb_sym c d). destruct (Ascii.eqb d c); [discriminate|].
    simpl. intros H. rewrite IH by exact H. reflexivity.
Qed.

Lemma isdigit_no_point (x : str) :
  isdigit x = true -> contains "."%char x = false.
Proof.
  unfold isdigit, contains. destruct x as [|d x]; [reflexivity|].
  intros H. rewrite forallb_forall in H.
  destruct (existsb (Ascii.eqb ".") (d :: x)) eqn:E; [|reflexivity].
  apply existsb_exists in E. destruct E as [c [Hin Hc]].
  apply Ascii.eqb_eq in Hc; subst c. apply H in Hin. discriminate.
Qed.

(** X12. What the loop counts as a float: a value made of digits and of one
    point, with at least one digit.  A sign, an exponent or a second point
    keep a value out, and so does the lack of digits. *)
Theorem is_float_iff (x : str) :
  is_float x = true <->
  exists a b : str,
    x = a ++ "."%char :: b
    /\ a ++ b <> []
    /\ Forall (fun c => Char.isdigit c = true) (a ++ b).
Proof.
  unfold is_float. rewrite andb_true_iff. split.
  - intros [Hd Hp]. apply remove_first_present in Hp.
    destruct Hp as [a [b [-> Ha]]]. rewrite remove_first_app in Hd by exact Ha.
    exists a, b. split; [reflexivity|]. unfold isdigit in Hd.
    destruct (a ++ b) eqn:E; [discriminate|].
    split; [discriminate|]. apply Forall_forall, forallb_forall, Hd.
  - intros [a [b [-> [Hne Hall]]]].
    assert (Hd : isdigit (a ++ b) = true).
    { unfold isdigit. destruct (a ++ b); [contradiction|].
      apply forallb_forall, Forall_forall, Hall. }
    assert (Ha : contains "."%char a = false).
    { pose proof (isdigit_no_point _ Hd) as H. unfold contains in *.
      rewrite existsb_app in H. apply orb_false_iff in H. apply H. }
    rewrite remove_first_app by exact Ha. split; [exact Hd|].
    apply remove_first_present. exists a, b. split; [reflexivity | exact Ha].
Qed.

Example is_float_examples :
  map is_float [s ".5"; s "5."; s "12.5"; s "."; s "1.2.3"; s "-1.5"; s "1e5"; s "12"]
  = [true; true; true; false; false; false; false; false].
Proof. reflexivity. Qed.

(** X13. What the loop counts as a long integer: a value of more than 4
    characters that is a string of digits or is counted as a float.  The
    floats of more than 4 characters are counted twice, among the floats
    and among the long integers. *)
Theorem is_long_int_iff (x : str) :
  is_long_int x = true <->
  (4 < len x)%Z /\ (isdigit x = true \/ is_float x = true).
Proof.
  unfold is_long_int, is_float. rewrite andb_true_iff, Z.ltb_lt.
  destruct (contains "."%char x) eqn:E.
  - rewrite andb_true_r. split; [tauto|].
    intros [Hl [Hd|Hd]]; [|tauto].
    apply isdigit_no_point in Hd. congruence.
  - rewrite remove_first_absent by exact E. rewrite andb_false_r.
    split; [tauto|]. intros [Hl [Hd|Hd]]; [tauto | discriminate].
Qed.

Lemma sum_bools_filter {A : Type} (g : A -> bool) (l : list A) :
  sum_bools (map g l) = len (filter g l).
Proof.
  unfold sum_bools.
  assert (H : forall acc,
            fold_left (fun a (b : bool) => (a + (if b then 1 else 0))%Z)
                      (map g l) acc
            = (acc + len (filter g l))%Z).
  { induction l as [|a l IH]; intros acc; simpl.
    - unfold len. simpl. lia.
    - rewrite IH. unfold len. destruct (g a); cbn [length]; lia. }
  apply (H 0%Z).
Qed.

Lemma disjoint_counts {A : Type} (f g : A -> bool) (l : list A) :
  (forall a, f a = true -> g a = false) ->
  (len (filter f l) + len (filter g l) <= len l)%Z.
Proof.
  intros H. unfold len. induction l as [|a l IH]; simpl; [lia|].
  destruct (f a) eqn:Ef.
  - rewrite (H a Ef). cbn [length]. lia.
  - destruct (g a); cbn [length]; lia.
Qed.

(** X14. An empty value is counted neither as a float nor as a long integer,
    so on a row with at least one value sparsity and the ratio of floats add
    up to at most 1, and so do sparsity and the ratio of long integers. *)
Theorem sparsity_and_numbers (r : row) :
  values r <> [] ->
  exists (f : first_features) (sp fl li : Q),
    first_loop_body r = Ok f
    /\ sparsity f = num sp /\ floats_N f = num fl /\ long_ints f = num li
    /\ sp + fl <= 1 /\ sp + li <= 1.
Proof.
  intros Hne. unfold first_loop_body.
  assert (Hn : (0 < len (np_array (values r)))%Z).
  { rewrite np_array_len. apply len_pos, Hne. }
  set (vals := np_array (values r)) in *.
  assert (Hv : forall (B : Type) (g : str -> B),
            np_vectorize g vals = Ok (map g vals)).
  { intros B g. destruct vals; [unfold len in Hn; simpl in Hn; lia | reflexivity]. }
  rewrite !Hv. cbn [bind]. rewrite !np_true_divide_num by exact Hn.
  rewrite !sum_bools_filter.
  do 4 eexists. split; [reflexivity|]. cbn [sparsity floats_N long_ints].
  split; [reflexivity|]. split; [reflexivity|]. split; [reflexivity|].
  assert (Hq : 0 < inject_Z (len vals)).
  { change 0 with (inject_Z 0). rewrite <- Zlt_Qlt. exact Hn. }
  assert (Hsum : forall g : str -> bool, g [] = false ->
            inject_Z (count_empty vals) / inject_Z (len vals)
            + inject_Z (len (filter g vals)) / inject_Z (len vals) <= 1).
  { intros g Hg.
    assert (Hle : (count_empty vals + len (filter g vals) <= len vals)%Z).
    { unfold count_empty. apply disjoint_counts. intros a Ha.
      apply str_eqb_eq in Ha. subst a. exact Hg. }
    rewrite Zle_Qle, inject_Z_plus in Hle.
    setoid_replace (inject_Z (count_empty vals) / inject_Z (len vals)
                    + inject_Z (len (filter g vals)) / inject_Z (len vals))
      with ((inject_Z (count_empty vals) + inject_Z (len (filter g vals)))
            / inject_Z (len vals)) by (field; lra).
    apply Qle_shift_div_r; [exact Hq | lra]. }
  split; apply Hsum; reflexivity.
Qed.

Lemma sparsity_and_numbers_witness :
  values decimal_row <> []
  /\ exists (f : first_features) (sp fl li : Q),
       first_loop_body decimal_row = Ok f
       /\ sparsity f = num sp /\ floats_N f = num fl /\ long_ints f = num li
       /\ sp + fl <= 1 /\ sp + li <= 1.
Proof.
  assert (H : values decimal_row <> []) by (vm_compute; discriminate).
  split; [exact H | exact (sparsity_and_numbers decimal_row H)].
Defined.

(** ** More on the word weight loop *)

Lemma qmax_spec (a b : Q) :
  a <= qmax a b /\ b <= qmax a b /\ (qmax a b = a \/ qmax a b = b).
Proof.
  unfold qmax. destruct (Qle_bool a b) eqn:E.
  - apply Qle_bool_iff in E. repeat split; auto; lra.
  - assert (~ a <= b) by (rewrite <- Qle_bool_iff; congruence).
    repeat split; auto; lra.
Qed.

Lemma fold_qmax_spec (a : list Q) (x : Q) :
  x <= fold_left qmax a x
  /\ Forall (fun e => e <= fold_left qmax a x) a
  /\ In (fold_left qmax a x) (x :: a).
Proof.
  revert x. induction a as [|e a IH]; intros x; simpl.
  - split; [lra|]. split; [constructor | auto].
  - destruct (IH (qmax x e)) as [H1 [H2 H3]].
    destruct (qmax_spec x e) as [Hx [He Hc]].
    split; [lra|]. split.
    + constructor; [lra | exact H2].
    + destruct H3 as [H3|H3]; [|auto].
      rewrite <- H3. destruct Hc as [->| ->]; auto.
Qed.

Lemma qsum_bounds (a : list Q) (lo hi : Q) :
  Forall (fun e => lo <= e <= hi) a ->
  inject_Z (len a) * lo <= qsum a <= inject_Z (len a) * hi.
Proof.
  induction 1 as [|e a He _ IH].
  - unfold len, qsum. cbn [length fold_right Z.of_nat].
    change (inject_Z 0) with 0. lra.
  - unfold len in *. cbn [qsum fold_right length].
    rewrite Nat2Z.inj_succ, <- Z.add_1_r, inject_Z_plus.
    fold (qsum a). change (inject_Z 1) with 1. lra.
Qed.

Lemma mean_bounds (a : list Q) (lo hi : Q) :
  a <> [] -> Forall (fun e => lo <= e <= hi) a ->
  lo <= qsum a / inject_Z (len a) <= hi.
Proof.
  intros Hne Hall. apply len_pos in Hne.
  assert (Hq : 0 < inject_Z (len a)).
  { change 0 with (inject_Z 0). rewrite <- Zlt_Qlt. exact Hne. }
  destruct (qsum_bounds a lo hi Hall) as [H1 H2]. split.
  - apply Qle_shift_div_l; [exact Hq | lra].
  - apply Qle_shift_div_r; [exact Hq | lra].
Qed.

Lemma Qsquare_nonneg (t : Q) : 0 <= t * t.
Proof.
  destruct (Qlt_le_dec t 0) as [H|H].
  - setoid_replace (t * t) with ((- t) * (- t)) by ring.
    apply Qmult_le_0_compat; lra.
  - apply Qmult_le_0_compat; exact H.
Qed.

Lemma Qsquare_le_1 (t : Q) : - (1) <= t <= 1 -> t * t <= 1.
Proof.
  intros [H1 H2].
  assert (H : 0 <= (1 - t) * (1 + t)) by (apply Qmult_le_0_compat; lra).
  setoid_replace ((1 - t) * (1 + t)) with (1 - t * t) in H by ring. lra.
Qed.

Lemma qsum_squares_nonneg (a : list Q) (m : Q) :
  0 <= qsum (map (fun x => (x - m) * (x - m)) a).
Proof.
  induction a as [|e a IH]; simpl; [lra|].
  fold (qsum (map (fun x => (x - m) * (x - m)) a)).
  pose proof (Qsquare_nonneg (e - m)). lra.
Qed.

Lemma qsum_deviations (a : list Q) (m : Q) :
  qsum (map (fun x => (x - m) * (x - m)) a)
  == qsum (map (fun x => x * x) a) - (2 # 1) * m * qsum a
     + inject_Z (len a) * m * m.
Proof.
  induction a as [|e a IH].
  - unfold len, qsum. cbn [map length fold_right Z.of_nat].
    change (inject_Z 0) with 0. ring.
  - unfold len in *. cbn [map qsum fold_right length].
    rewrite Nat2Z.inj_succ, <- Z.add_1_r, inject_Z_plus.
    fold (qsum (map (fun x => (x - m) * (x - m)) a)).
    fold (qsum (map (fun x => x * x) a)). fold (qsum a).
    rewrite IH. change (inject_Z 1) with 1. ring.
Qed.

Lemma variance_bounds (a : list Q) :
  a <> [] -> Forall (fun e => - (1) <= e <= 1) a ->
  let m := qsum a / inject_Z (len a) in
  0 <= qsum (map (fun x => (x - m) * (x - m)) a) / inject_Z (len a) <= 1.
Proof.
  intros Hne Hall m. pose proof (len_pos _ Hne) as Hn.
  assert (Hq : 0 < inject_Z (len a)).
  { change 0 with (inject_Z 0). rewrite <- Zlt_Qlt. exact Hn. }
  split.
  - apply Qle_shift_div_l; [exact Hq|].
    pose proof (qsum_squares_nonneg a m). lra.
  - apply Qle_shift_div_r; [exact Hq|].
    rewrite qsum_deviations.
    assert (Hm : m * inject_Z (len a) == qsum a).
    { unfold m. field. lra. }
    assert (Hsq : qsum (map (fun x => x * x) a) <= inject_Z (len a) * 1).
    { pose proof (qsum_bounds (map (fun x => x * x) a) 0 1) as H.
      unfold len in H. rewrite length_map in H. apply H. apply Forall_map.
      eapply Forall_impl; [|exact Hall]. intros e He. simpl.
      split; [apply Qsquare_nonneg | apply Qsquare_le_1, He]. }
    assert (Hnm : 0 <= inject_Z (len a) * (m * m)).
    { apply Qmult_le_0_compat; [lra | apply Qsquare_nonneg]. }
    setoid_replace (qsum (map (fun x => x * x) a) - (2 # 1) * m * qsum a
                    + inject_Z (len a) * m * m)
      with (qsum (map (fun x => x * x) a) - inject_Z (len a) * (m * m))
      by (rewrite <- Hm; ring).
    lra.
Qed.

Lemma weights_loop_body_some (word_weights : dict Q) (r : row) :
  words_from_values (np_array (values r)) <> [] ->
  exists x a,
    lookups word_weights r = x :: a
    /\ weights_loop_body word_weights r
       = Ok (num (qsum (x :: a) / inject_Z (len (x :: a))),
             num (fold_left qmax a x),
             np_std (x :: a)).
Proof.
  intros Hne. unfold weights_loop_body, lookups.
  destruct (words_from_values (np_array (values r))) as [|t ts]; [contradiction|].
  cbn [map]. eexists. eexists. split; [reflexivity|].
  replace (0 <? len (_ :: _))%Z with true; [reflexivity|].
  symmetry. apply Z.ltb_lt. unfold len. cbn [length]. lia.
Qed.

(** X15. On a row that gives at least one token the word weight loop stores
    numbers: the max is one of the looked-up weights and none of them is
    above it, and the std is the root of a number that is not negative. *)
Theorem max_and_std (word_weights : dict Q) (r : row) :
  words_from_values (np_array (values r)) <> [] ->
  exists mean mx variance : Q,
    weights_loop_body word_weights r = Ok (num mean, num mx, sqrt variance)
    /\ In mx (lookups word_weights r)
    /\ Forall (fun e => e <= mx) (lookups word_weights r)
    /\ 0 <= variance.
Proof.
  intros Hne.
  destruct (weights_loop_body_some word_weights r Hne) as [x [a [Hl Hb]]].
  rewrite Hb, Hl. cbn [np_std]. do 3 eexists. split; [reflexivity|].
  destruct (fold_qmax_spec a x) as [H1 [H2 H3]].
  split; [exact H3|]. split; [constructor; assumption|].
  assert (Hq : 0 < inject_Z (len (x :: a))).
  { change 0 with (inject_Z 0). rewrite <- Zlt_Qlt. apply len_pos. discriminate. }
  apply Qle_shift_div_l; [exact Hq|].
  pose proof (qsum_squares_nonneg (x :: a) (qsum (x :: a) / inject_Z (len (x :: a)))).
  lra.
Qed.

Lemma max_and_std_witness :
  words_from_values (np_array (values header_row)) <> []
  /\ exists mean mx variance : Q,
       weights_loop_body [(s "name", 1); (s "age", 1 # 2)] header_row
       = Ok (num mean, num mx, sqrt variance)
       /\ In mx (lookups [(s "name", 1); (s "age", 1 # 2)] header_row)
       /\ Forall (fun e => e <= mx) (lookups [(s "name", 1); (s "age", 1 # 2)] header_row)
       /\ 0 <= variance.
Proof.
  assert (H : words_from_values (np_array (values header_row)) <> [])
    by (vm_compute; discriminate).
  split; [exact H | exact (max_and_std _ header_row H)].
Defined.

(** X16. With the weights that [word_weights] computes from a sample, the
    features of any row that gives a token are bounded: mean and max lie
    between -1 and 1, and the std is the root of a number between 0 and 1. *)
Theorem word_weight_features_bounded (data_sampled : list row) (r : row) :
  words_from_values (np_array (values r)) <> [] ->
  exists (ww : dict Q) (mean mx variance : Q),
    word_weights data_sampled = Ok ww
    /\ weights_loop_body ww r = Ok (num mean, num mx, sqrt variance)
    /\ - (1) <= mean <= 1
    /\ - (1) <= mx <= 1
    /\ 0 <= variance <= 1.
Proof.
  intros Hne.
  destruct (word_weights_range data_sampled) as [ww [Hw Hrange]].
  destruct (weights_loop_body_some ww r Hne) as [x [a [Hl Hb]]].
  assert (Hall : Forall (fun e => - (1) <= e <= 1) (x :: a)).
  { rewrite <- Hl. unfold lookups. apply Forall_map, Forall_forall.
    intros word _. apply Hrange. }
  exists ww. rewrite Hb. cbn [np_std]. do 3 eexists.
  split; [exact Hw|]. split; [reflexivity|].
  split; [apply mean_bounds; [discriminate | exact Hall]|].
  split.
  - destruct (fold_qmax_spec a x) as [_ [_ H3]].
    rewrite Forall_forall in Hall. apply Hall, H3.
  - apply variance_bounds; [discriminate | exact Hall].
Qed.

Lemma word_weight_features_bounded_witness :
  words_from_values (np_array (values other_row)) <> []
  /\ exists (ww : dict Q) (mean mx variance : Q),
       word_weights [header_row; other_row] = Ok ww
       /\ weights_loop_body ww other_row = Ok (num mean, num mx, sqrt variance)
       /\ - (1) <= mean <= 1
       /\ - (1) <= mx <= 1
       /\ 0 <= variance <= 1.
Proof.
  assert (H : words_from_values (np_array (values other_row)) <> [])
    by (vm_compute; discriminate).
  split; [exact H | exact (word_weight_features_bounded [header_row; other_row] other_row H)].
Defined.

(** ** More on the date loop *)

Section Findall.

Variable pattern : option ascii -> str -> option str.
Variable width : nat.

Hypothesis pattern_long :
  forall before x m, pattern before x = Some m -> (width < length x)%nat.

Lemma findall_from_length (x : str) :
  forall (before : option ascii) (skip : nat),
    (S width * length (findall_from pattern width before skip x)
     <= length x - skip)%nat.
Proof.
  induction x as [|c x IH]; intros before skip; [simpl; lia|].
  cbn [findall_from]. destruct skip as [|k].
  - destruct (pattern before (c :: x)) as [m|] eqn:E.
    + apply pattern_long in E. cbn [length] in *.
      specialize (IH (Some c) width). lia.
    + specialize (IH (Some c) 0%nat). cbn [length]. lia.
  - specialize (IH (Some c) k). cbn [length]. lia.
Qed.

Hypothesis pattern_space :
  forall before a b, pattern before (a ++ " "%char :: b) = pattern before a.

Hypothesis pattern_after_space :
  forall x, pattern (Some " "%char) x = pattern None x.

Lemma findall_from_after_space (x : str) :
  findall_from pattern width (Some " "%char) 0 x
  = findall_from pattern width None 0 x.
Proof. destruct x; [reflexivity|]. simpl. rewrite pattern_after_space. reflexivity. Qed.

Lemma findall_from_space (a b : str) :
  forall (before : option ascii) (skip : nat),
    (skip <= length a)%nat ->
    findall_from pattern width before skip (a ++ " "%char :: b)
    = findall_from pattern width before skip a
      ++ findall_from pattern width None 0 b.
Proof.
  induction a as [|c a IH]; intros before skip Hs.
  - assert (skip = 0%nat) by (simpl in Hs; lia). subst skip.
    cbn [app findall_from].
    rewrite <- (app_nil_l (" "%char :: b)), pattern_space.
    destruct (pattern before []) as [m|] eqn:E.
    + apply pattern_long in E. simpl in E. lia.
    + apply findall_from_after_space.
  - cbn [app findall_from]. destruct skip as [|k].
    + change (c :: a ++ " "%char :: b) with ((c :: a) ++ " "%char :: b).
      rewrite (pattern_space before (c :: a) b).
      destruct (pattern before (c :: a)) as [m|] eqn:E.
      * apply pattern_long in E. cbn [length] in E.
        rewrite IH by lia. reflexivity.
      * apply IH. lia.
    + apply IH. cbn [length] in Hs. lia.
Qed.

Lemma findall_from_join (values : list str) :
  findall_from pattern width None 0 (join (s " ") values)
  = flat_map (findall_from pattern width None 0) values.
Proof.
  induction values as [|x values IH]; [reflexivity|].
  destruct values as [|x' values]; [simpl; rewrite app_nil_r; reflexivity|].
  change (join (s " ") (x :: x' :: values))
    with (x ++ " "%char :: join (s " ") (x' :: values)).
  rewrite findall_from_space by lia. rewrite IH. reflexivity.
Qed.

End Findall.

Ltac no_match :=
  cbn; rewrite ?andb_false_r, ?andb_false_l, ?orb_false_r; cbn;
  rewrite ?andb_false_r; reflexivity.

Lemma YEAR_PATTERN_long (before : option ascii) (x m : str) :
  YEAR_PATTERN before x = Some m -> (3 < length x)%nat.
Proof.
  destruct x as [|a [|b [|c [|d rest]]]]; try discriminate.
  intros _. simpl. lia.
Qed.

Lemma YEAR_PATTERN_space (before : option ascii) (a b : str) :
  YEAR_PATTERN before (a ++ " "%char :: b) = YEAR_PATTERN before a.
Proof.
  destruct a as [|a1 [|a2 [|a3 [|a4 [|a5 rest]]]]];
    try reflexivity;
    destruct b as [|b1 [|b2 [|b3 b]]]; try reflexivity; no_match.
Qed.

Lemma YEAR_PATTERN_after_space (x : str) :
  YEAR_PATTERN (Some " "%char) x = YEAR_PATTERN None x.
Proof. destruct x as [|a [|b [|c [|d rest]]]]; reflexivity. Qed.

Lemma DDMM_PATTERN_long (x m : str) :
  DDMM_PATTERN x = Some m -> (4 < length x)%nat.
Proof.
  destruct x as [|a [|b [|c [|d [|e rest]]]]]; try discriminate.
  intros _. simpl. lia.
Qed.

Lemma DDMM_PATTERN_space (a b : str) :
  DDMM_PATTERN (a ++ " "%char :: b) = DDMM_PATTERN a.
Proof.
  destruct a as [|a1 [|a2 [|a3 [|a4 [|a5 rest]]]]];
    try reflexivity;
    destruct b as [|b1 [|b2 [|b3 [|b4 b]]]]; try reflexivity; no_match.
Qed.

(** X17. A match of either pattern lies inside one value: the matches in
    the values joined by spaces are the matches in the first value, then
    those in the second, and so on. *)
Theorem findall_joined_values (values : list str) :
  findall_YEAR (join (s " ") values) = flat_map findall_YEAR values
  /\ findall_DDMM (join (s " ") values) = flat_map findall_DDMM values.
Proof.
  split.
  - apply findall_from_join.
    + intros before x m. apply YEAR_PATTERN_long.
    + apply YEAR_PATTERN_space.
    + apply YEAR_PATTERN_after_space.
  - apply (findall_from_join (fun _ => DDMM_PATTERN)).
    + intros _ x m. apply DDMM_PATTERN_long.
    + intros _. apply DDMM_PATTERN_space.
    + reflexivity.
Qed.

Lemma density_bound (count n : nat) (k : Z) :
  (0 < k)%Z -> (Z.to_nat k * count <= n)%nat -> (0 < n)%nat ->
  0 <= inject_Z (Z.of_nat count) / inject_Z (Z.of_nat n) <= 1 / inject_Z k.
Proof.
  intros Hk Hc Hn.
  assert (Hq : 0 < inject_Z (Z.of_nat n)).
  { change 0 with (inject_Z 0). rewrite <- Zlt_Qlt. lia. }
  assert (Hkq : 0 < inject_Z k).
  { change 0 with (inject_Z 0). rewrite <- Zlt_Qlt. lia. }
  split.
  - apply Qle_shift_div_l; [exact Hq|]. rewrite Qmult_0_l.
    change 0 with (inject_Z 0). rewrite <- Zle_Qle. lia.
  - apply Qle_shift_div_r; [exact Hq|].
    assert (H : inject_Z k * inject_Z (Z.of_nat count) <= inject_Z (Z.of_nat n)).
    { rewrite <- inject_Z_mult, <- Zle_Qle. lia. }
    setoid_replace (1 / inject_Z k * inject_Z (Z.of_nat n))
      with (inject_Z (Z.of_nat n) / inject_Z k) by (field; lra).
    apply Qle_shift_div_l; [exact Hkq|]. lra.
Qed.

(** X18. On every row the date loop returns.  Where the densities are
    numbers, the density of years lies between 0 and 1/4 and the density of
    day/month pairs between 0 and 1/5, because the matches of a pattern do
    not overlap. *)
Theorem densities_bounded (r : row) :
  exists years ddmm : npfloat,
    dates_loop_body r = Ok (years, ddmm)
    /\ ((years = nan /\ ddmm = nan)
        \/ exists qy qd : Q,
             years = num qy /\ ddmm = num qd
             /\ 0 <= qy <= 1 # 4 /\ 0 <= qd <= 1 # 5).
Proof.
  unfold dates_loop_body.
  destruct (join (s " ") (np_array (values r))) as [|c rest].
  - do 2 eexists. split; [reflexivity|]. left. split; reflexivity.
  - set (whole := c :: rest).
    assert (Hn : (0 < length whole)%nat) by (simpl; lia).
    replace (0 <? len whole)%Z with true
      by (symmetry; apply Z.ltb_lt; unfold len; lia).
    unfold int_truediv.
    replace (len whole =? 0)%Z with false
      by (symmetry; apply Z.eqb_neq; unfold len; lia).
    cbn [bind]. do 2 eexists. split; [reflexivity|]. right.
    do 2 eexists. split; [reflexivity|]. split; [reflexivity|].
    unfold len. split.
    + apply (density_bound _ _ 4); [lia | | exact Hn].
      pose proof (findall_from_length YEAR_PATTERN 3 YEAR_PATTERN_long
                    whole None 0) as H.
      unfold findall_YEAR. simpl Z.to_nat. lia.
    + apply (density_bound _ _ 5); [lia | | exact Hn].
      pose proof (findall_from_length (fun _ => DDMM_PATTERN) 4
                    (fun _ => DDMM_PATTERN_long) whole None 0) as H.
      unfold findall_DDMM. simpl Z.to_nat. lia.
Qed.

Lemma weights_loop_body_returns (word_weights : dict Q) (r : row) :
  exists t, weights_loop_body word_weights r = Ok t.
Proof.
  destruct (words_from_values (np_array (values r))) as [|w ws] eqn:E.
  - unfold weights_loop_body. rewrite E. eexists. reflexivity.
  - destruct (weights_loop_body_some word_weights r) as [x [a [_ H]]].
    + rewrite E. discriminate.
    + eexists. exact H.
Qed.

Lemma dates_loop_body_returns (r : row) :
  exists t, dates_loop_body r = Ok t.
Proof.
  unfold dates_loop_body.
  destruct (join (s " ") (np_array (values r))) as [|c string].
  - eexists. reflexivity.
  - replace (0 <? len (c :: string))%Z with true
      by (symmetry; apply Z.ltb_lt; unfold len; cbn [length]; lia).
    unfold int_truediv.
    replace (len (c :: string) =? 0)%Z with false
      by (symmetry; apply Z.eqb_neq; unfold len; cbn [length]; lia).
    eexists. reflexivity.
Qed.

(** X19. The word weight loop and the date loop return on every sample,
    also on one with rows without values, and give one entry per row. *)
Theorem later_loops_return (word_weights : dict Q) (data_sampled : list row) :
  exists ws ds,
    weights_loop word_weights data_sampled = Ok ws
    /\ dates_loop data_sampled = Ok ds
    /\ length ws = length data_sampled
    /\ length ds = length data_sampled.
Proof.
  destruct (mapM_Ok (weights_loop_body word_weights) data_sampled) as [ws [Hw Hws]].
  { apply Forall_forall. intros r _. apply weights_loop_body_returns. }
  destruct (mapM_Ok dates_loop_body data_sampled) as [ds [Hd Hds]].
  { apply Forall_forall. intros r _. apply dates_loop_body_returns. }
  exists ws, ds. split; [exact Hw|]. split; [exact Hd|].
  split; symmetry; eapply Forall2_length; eassumption.
Qed.
